(** * Intrinsic initializers of OpenImuCameraCalibrator

    A shallow embedding of [src/utils/intrinsic_initializer.cc]
    (namespace [OpenCamCalib]) and the properties of its three entry
    points:

    - [initialize_pinhole_camera]
    - [initialize_radial_undistortion_camera]
    - [initialize_doublesphere_model]

    C++ [double] is IEEE-754 binary64, which is what Rocq's primitive
    [float] is; arithmetic and comparisons are therefore the machine's,
    including the behaviour of NaN and infinities in the guards.  Each
    C++ expression is evaluated operation by operation in source order
    (no fused multiply-add contraction).

    The robust pose estimators, the singular value decomposition, the
    double-sphere camera model and libm's [hypot] are not part of the
    file; they are the fields of the class [Collaborators], and every
    theorem of the development holds for all of them.

    What the functions print on [std::cout] is left out: [verbose]
    selects printing only and no value depends on it.  Loop counters
    and [in_image] are C++ [int]s; they are modelled by integers, which
    is what they are as long as boards and correspondence sets have
    fewer than [2^31] rows, columns and elements. *)

From Stdlib Require Import ZArith List Bool Lia Floats.
From Stdlib Require Uint63.
From stdpp Require Import base option list gmap.

Set Default Proof Using "Type".
Local Open Scope Z_scope.

(** ** Machine integers *)

Module Int.

(** Conversion of a mathematical value to [size_t] (64 bits). *)
Definition to_size_t (z : Z) : Z := z mod 2 ^ 64.

(** Conversion to [int] (32 bits, two's complement). *)
Definition to_int (z : Z) : Z := (z + 2 ^ 31) mod 2 ^ 32 - 2 ^ 31.

(** The values [0, 1, ..., n - 1], the range of
    [for (int i = 0; i < n; ++i)] when [n] is a [size_t]. *)
Definition upto (n : Z) : list Z := map Z.of_nat (seq 0 (Z.to_nat n)).

(** Conversion of an [int] to [double]; exact on the whole [int]
    range. *)
Definition to_double (z : Z) : float :=
  if z <? 0 then PrimFloat.opp (PrimFloat.of_uint63 (Uint63.of_Z (- z)))
  else PrimFloat.of_uint63 (Uint63.of_Z z).

End Int.

(** ** Doubles *)

Module Double.

Abbreviation double := float (only parsing).

Local Open Scope float_scope.

(** [std::numeric_limits<double>::max()]. *)
Definition max : double := 0x1.fffffffffffffp+1023.

(** The literal [0.95], rounded to the nearest double as the C++
    compiler does. *)
Definition c0_95 : double := 0x1.e666666666666p-1.

Definition fabs (x : double) : double := PrimFloat.abs x.
Definition sqrt (x : double) : double := PrimFloat.sqrt x.

(** [a < b] on doubles: false as soon as one side is NaN. *)
Definition lt (a b : double) : bool := a <? b.
(** [a >= b] on doubles. *)
Definition ge (a b : double) : bool := b <=? a.

End Double.

Import Double.

(** ** Eigen values *)

Module Eigen.

Local Open Scope float_scope.

Record Vector2d := V2 { x2 : double; y2 : double }.
Record Vector3d := V3 { x3 : double; y3 : double; z3 : double }.
Record Vector4d := V4 { c0 : double; c1 : double; c2 : double; c3 : double }.

(** A 3x3 matrix, given by its rows. *)
Record Matrix3d := M3 { r0 : Vector3d; r1 : Vector3d; r2 : Vector3d }.

(** A 4x4 matrix, given by its columns (as [matrixV().col(k)] reads
    it). *)
Record Matrix4d :=
  M4 { col0 : Vector4d; col1 : Vector4d; col2 : Vector4d; col3 : Vector4d }.

Definition transpose (m : Matrix3d) : Matrix3d :=
  M3 (V3 (x3 (r0 m)) (x3 (r1 m)) (x3 (r2 m)))
     (V3 (y3 (r0 m)) (y3 (r1 m)) (y3 (r2 m)))
     (V3 (z3 (r0 m)) (z3 (r1 m)) (z3 (r2 m))).

Definition vopp (v : Vector3d) : Vector3d :=
  V3 (- x3 v) (- y3 v) (- z3 v).

(** Unary minus on a matrix, coefficient by coefficient. *)
Definition mopp (m : Matrix3d) : Matrix3d :=
  M3 (vopp (r0 m)) (vopp (r1 m)) (vopp (r2 m)).

(** Inner product, accumulated from the first coefficient on. *)
Definition dot (a b : Vector3d) : double :=
  x3 a * x3 b + y3 a * y3 b + z3 a * z3 b.

(** Matrix times vector. *)
Definition mulv (m : Matrix3d) (v : Vector3d) : Vector3d :=
  V3 (dot (r0 m) v) (dot (r1 m) v) (dot (r2 m) v).

(** [v.hnormalized()] on a 3-vector: the first two coefficients
    divided by the last. *)
Definition hnormalized (v : Vector3d) : Vector2d :=
  V2 (x3 v / z3 v) (y3 v / z3 v).

(** [v.homogeneous()] on a 3-vector. *)
Definition homogeneous (v : Vector3d) : Vector4d :=
  V4 (x3 v) (y3 v) (z3 v) 1.

Definition sub2 (a b : Vector2d) : Vector2d :=
  V2 (x2 a - x2 b) (y2 a - y2 b).

Definition squaredNorm (v : Vector2d) : double :=
  x2 v * x2 v + y2 v * y2 v.

End Eigen.

Import Eigen.

(** ** Theia values *)

(** [theia::FeatureCorrespondence2D3D]. *)
Record FeatureCorrespondence2D3D := Correspondence {
  feature : Vector2d;
  world_point : Vector3d
}.

(** [theia::UncalibratedAbsolutePose]. *)
Record UncalibratedAbsolutePose := {
  ua_rotation : Matrix3d;
  ua_position : Vector3d;
  ua_focal_length : double
}.

(** [theia::RadialDistUncalibratedAbsolutePose]. *)
Record RadialDistUncalibratedAbsolutePose := {
  rd_rotation : Matrix3d;
  rd_translation : Vector3d;
  rd_focal_length : double;
  rd_radial_distortion : double
}.

(** [theia::RadialDistUncalibratedAbsolutePoseMetaData]: the fields the
    initializer sets. *)
Record RadialDistUncalibratedAbsolutePoseMetaData := {
  max_focal_length : double;
  min_focal_length : double
}.

(** [theia::CalibratedAbsolutePose]. *)
Record CalibratedAbsolutePose := {
  ca_rotation : Matrix3d;
  ca_position : Vector3d
}.

(** The entries of the intrinsics array of a
    [theia::DoubleSphereCameraModel] that the initializer writes. *)
Record DoubleSphereIntrinsics := {
  FOCAL_LENGTH : double;
  PRINCIPAL_POINT_X : double;
  PRINCIPAL_POINT_Y : double;
  ASPECT_RATIO : double;
  XI : double;
  ALPHA : double
}.

(** A [theia::Camera] of model type [DOUBLE_SPHERE]: its intrinsics and,
    once [SetPosition] and [SetOrientationFromRotationMatrix] have been
    called, its pose. *)
Record Camera := {
  cam_intrinsics : DoubleSphereIntrinsics;
  cam_position : Vector3d;
  cam_orientation : Matrix3d
}.

(** [cv::Size], as [getChessboardSize()] returns it. *)
Record ChessboardSize := { width : Z; height : Z }.

(** ** External collaborators

    What the file calls and does not define.  An estimator receives the
    caller's summary object and the state of the sampler it draws from,
    and returns what it leaves in both; its pose argument is a local,
    default-constructed object, so what it holds after the call is part
    of the estimator's result. *)

Record Estimate (Pose Summary Sampler : Type) := {
  est_success : bool;
  est_pose : Pose;
  est_summary : Summary;
  est_sampler : Sampler
}.
Arguments est_success {_ _ _} _.
Arguments est_pose {_ _ _} _.
Arguments est_summary {_ _ _} _.
Arguments est_sampler {_ _ _} _.

Class Collaborators := {
  (** [theia::RansacParameters], passed through. *)
  RansacParameters : Type;
  (** [theia::RansacSummary] and its member [inliers]. *)
  RansacSummary : Type;
  inliers : RansacSummary -> list Z;
  (** The state of the random sampler behind [ransac_params]. *)
  Sampler : Type;
  EstimateUncalibratedAbsolutePose :
    RansacParameters -> list FeatureCorrespondence2D3D ->
    RansacSummary -> Sampler ->
    Estimate UncalibratedAbsolutePose RansacSummary Sampler;
  EstimateRadialDistUncalibratedAbsolutePose :
    RansacParameters -> list FeatureCorrespondence2D3D ->
    RadialDistUncalibratedAbsolutePoseMetaData ->
    RansacSummary -> Sampler ->
    Estimate RadialDistUncalibratedAbsolutePose RansacSummary Sampler;
  EstimateCalibratedAbsolutePose :
    RansacParameters -> list FeatureCorrespondence2D3D ->
    RansacSummary -> Sampler ->
    Estimate CalibratedAbsolutePose RansacSummary Sampler;
  (** [Eigen::JacobiSVD<MatrixXd>(P_mat_t, ThinU | ThinV).matrixV()],
      where the argument lists the rows of [P_mat_t]. *)
  JacobiSVD_matrixV : list Vector4d -> Matrix4d;
  (** [theia::Camera::PixelToNormalizedCoordinates]; it reads the
      intrinsics only. *)
  PixelToNormalizedCoordinates : DoubleSphereIntrinsics -> Vector2d -> Vector3d;
  (** [theia::Camera::ProjectPoint]: the pixel it writes. *)
  ProjectPoint : Camera -> Vector4d -> Vector2d;
  (** libm's [hypot]. *)
  hypot : double -> double -> double
}.

(** ** The initializers *)

Section Initializers.

Context `{Collaborators}.

Local Open Scope float_scope.

(** A call to a collaborator, as the log of a run records it.  An
    estimator call is logged with the correspondences it was given; the
    calibrated one also with the summary it left. *)
Inductive Event :=
| SvdCall (P : list Vector4d)
| UncalibratedCall (cs : list FeatureCorrespondence2D3D)
| RadialDistCall (cs : list FeatureCorrespondence2D3D)
    (meta : RadialDistUncalibratedAbsolutePoseMetaData)
| CalibratedCall (cs : list FeatureCorrespondence2D3D)
    (summary : RansacSummary).

Definition is_estimator_call (e : Event) : bool :=
  match e with
  | SvdCall _ => false
  | _ => true
  end.

(** The objects of the caller that an initializer reaches through its
    reference parameters, the state of the sampler, and the log of the
    collaborator calls made so far (most recent first). *)
Record Env := {
  correspondences : list FeatureCorrespondence2D3D;
  ransac_summary : RansacSummary;
  rotation : Matrix3d;
  position : Vector3d;
  focal_length : double;
  radial_distortion : double;
  sampler : Sampler;
  calls : list Event
}.

(** An estimator has returned: it has written the summary and advanced
    the sampler. *)
Definition estimated (env : Env) (s : RansacSummary) (g : Sampler)
    (e : Event) : Env :=
  {| correspondences := correspondences env;
     ransac_summary := s;
     rotation := rotation env;
     position := position env;
     focal_length := focal_length env;
     radial_distortion := radial_distortion env;
     sampler := g;
     calls := e :: calls env |}.

Definition logged (env : Env) (e : Event) : Env :=
  estimated env (ransac_summary env) (sampler env) e.

(** [rotation = R;] *)
Definition set_rotation (env : Env) (R : Matrix3d) : Env :=
  {| correspondences := correspondences env;
     ransac_summary := ransac_summary env;
     rotation := R;
     position := position env;
     focal_length := focal_length env;
     radial_distortion := radial_distortion env;
     sampler := sampler env;
     calls := calls env |}.

(** [position = p;] *)
Definition set_position (env : Env) (p : Vector3d) : Env :=
  {| correspondences := correspondences env;
     ransac_summary := ransac_summary env;
     rotation := rotation env;
     position := p;
     focal_length := focal_length env;
     radial_distortion := radial_distortion env;
     sampler := sampler env;
     calls := calls env |}.

(** [focal_length = f;] *)
Definition set_focal_length (env : Env) (f : double) : Env :=
  {| correspondences := correspondences env;
     ransac_summary := ransac_summary env;
     rotation := rotation env;
     position := position env;
     focal_length := f;
     radial_distortion := radial_distortion env;
     sampler := sampler env;
     calls := calls env |}.

(** [radial_distortion = k;] *)
Definition set_radial_distortion (env : Env) (k : double) : Env :=
  {| correspondences := correspondences env;
     ransac_summary := ransac_summary env;
     rotation := rotation env;
     position := position env;
     focal_length := focal_length env;
     radial_distortion := k;
     sampler := sampler env;
     calls := calls env |}.

(** [ransac_summary.inliers.size() < 10]. *)
Definition too_few_inliers (s : RansacSummary) : bool :=
  (length (inliers s) <? 10)%nat.

(** *** [initialize_pinhole_camera] *)

Definition pinhole_estimate (ransac_params : RansacParameters) (env : Env)
    : Estimate UncalibratedAbsolutePose RansacSummary Sampler :=
  EstimateUncalibratedAbsolutePose ransac_params (correspondences env)
    (ransac_summary env) (sampler env).

Definition initialize_pinhole_camera (ransac_params : RansacParameters)
    (verbose : bool) (env : Env) : bool * Env :=
  let e := pinhole_estimate ransac_params env in
  let pose_linear := est_pose e in
  let success := est_success e in
  let env := estimated env (est_summary e) (est_sampler e)
               (UncalibratedCall (correspondences env)) in
  let env := set_rotation env (ua_rotation pose_linear) in
  let env := set_position env (ua_position pose_linear) in
  let env := set_focal_length env (ua_focal_length pose_linear) in
  if too_few_inliers (ransac_summary env) then (false, env)
  else (success, env).

(** *** [initialize_radial_undistortion_camera] *)

Definition radial_meta_data (img_cols : Z)
    : RadialDistUncalibratedAbsolutePoseMetaData :=
  {| max_focal_length := 0.5 * Int.to_double img_cols + 150;
     min_focal_length := 0.5 * Int.to_double img_cols - 150 |}.

Definition radial_estimate (ransac_params : RansacParameters) (img_cols : Z)
    (env : Env)
    : Estimate RadialDistUncalibratedAbsolutePose RansacSummary Sampler :=
  EstimateRadialDistUncalibratedAbsolutePose ransac_params
    (correspondences env) (radial_meta_data img_cols)
    (ransac_summary env) (sampler env).

Definition initialize_radial_undistortion_camera
    (ransac_params : RansacParameters) (img_cols : Z) (verbose : bool)
    (env : Env) : bool * Env :=
  if (length (correspondences env) <=? 4)%nat then (false, env)
  else
    let meta_data := radial_meta_data img_cols in
    let e := radial_estimate ransac_params img_cols env in
    let pose_division_undist := est_pose e in
    let success := est_success e in
    let env := estimated env (est_summary e) (est_sampler e)
                 (RadialDistCall (correspondences env) meta_data) in
    let env := set_rotation env (rd_rotation pose_division_undist) in
    let env :=
      set_position env
        (mulv (mopp (transpose (rd_rotation pose_division_undist)))
              (rd_translation pose_division_undist)) in
    let env :=
      set_radial_distortion env (rd_radial_distortion pose_division_undist) in
    let env := set_focal_length env (rd_focal_length pose_division_undist) in
    if too_few_inliers (ransac_summary env) then (false, env)
    else (success, env).

(** *** [initialize_doublesphere_model] *)

(** The loop that fills [id_to_corner]:
    [id_to_corner[charuco_ids[i]] = correspondences[i].feature] for
    [i = start, start + 1, ...].  [None] when the identifiers outnumber
    the correspondences, where the C++ reads past the end of the vector. *)
Fixpoint fill_id_to_corner (charuco_ids : list Z) (i : nat)
    (cs : list FeatureCorrespondence2D3D) (id_to_corner : gmap Z Vector2d)
    : option (gmap Z Vector2d) :=
  match charuco_ids with
  | [] => Some id_to_corner
  | id :: ids =>
      match cs !! i with
      | Some cor => fill_id_to_corner ids (S i) cs (<[id := feature cor]> id_to_corner)
      | None => None
      end
  end.

Definition MIN_CORNERS : Z := 8.

(** [int corner_id = (r * target_cols + c)], computed in [size_t] and
    converted to [int]. *)
Definition corner_id (r target_cols c : Z) : Z :=
  Int.to_int (Int.to_size_t (r * target_cols + c)).

(** The 4-vector appended to [P] for an observed corner. *)
Definition lifted (imagePoint : Vector2d) : Vector4d :=
  V4 (x2 imagePoint) (y2 imagePoint) 0.5
     (-0.5 * (x2 imagePoint * x2 imagePoint + y2 imagePoint * y2 imagePoint)).

(** The inner loop over the columns of row [r]: the vector [P]. *)
Definition row_points (id_to_corner : gmap Z Vector2d) (target_cols r : Z)
    : list Vector4d :=
  omap (fun c => lifted <$> id_to_corner !! corner_id r target_cols c)
       (Int.upto target_cols).

(** [P.size() > MIN_CORNERS]. *)
Definition enough_corners (P : list Vector4d) : bool :=
  (MIN_CORNERS <? Z.of_nat (length P))%Z.

Definition line_t (C : Vector4d) : double :=
  c0 C * c0 C + c1 C * c1 C + c2 C * c3 C.

Definition line_d (C : Vector4d) : double := sqrt (1 / line_t C).
Definition line_nx (C : Vector4d) : double := c0 C * line_d C.
Definition line_ny (C : Vector4d) : double := c1 C * line_d C.

(** [t < 0]. *)
Definition no_real_solution (C : Vector4d) : bool := lt (line_t C) 0.

(** [hypot(nx, ny) > 0.95]. *)
Definition near_radial (C : Vector4d) : bool :=
  lt c0_95 (hypot (line_nx C) (line_ny C)).

(** From the null-space vector [C] to [gamma]; [None] on the two
    [continue] statements. *)
Definition fit_gamma (C : Vector4d) : option double :=
  if no_real_solution C then None
  else
    let d := line_d C in
    let nx := line_nx C in
    let ny := line_ny C in
    if near_radial C then None
    else
      let nz := sqrt (1 - nx * nx - ny * ny) in
      Some (fabs (c2 C * d / nz)).

(** The intrinsics written into [cam] for a row's [gamma]. *)
Definition guess_intrinsics (gamma : double) (img_cols img_rows : Z)
    : DoubleSphereIntrinsics :=
  let _xi := 1 in
  let _cu := Int.to_double img_cols / 2 - 0.5 in
  let _cv := Int.to_double img_rows / 2 - 0.5 in
  {| FOCAL_LENGTH := 0.5 * gamma;
     PRINCIPAL_POINT_X := _cu;
     PRINCIPAL_POINT_Y := _cv;
     ASPECT_RATIO := 1;
     XI := 0.5 * _xi;
     ALPHA := 0 |}.

(** The body of [for (auto &cor : correspondences_new)]. *)
Definition undistort (intrinsics : DoubleSphereIntrinsics)
    (cor : FeatureCorrespondence2D3D) : FeatureCorrespondence2D3D :=
  {| feature :=
       hnormalized (PixelToNormalizedCoordinates intrinsics (feature cor));
     world_point := world_point cor |}.

(** [pixel(0) >= 0.0 && pixel(1) >= 0.0 && pixel(0) < img_cols &&
    pixel(1) < img_rows]. *)
Definition in_image_bounds (pixel : Vector2d) (img_cols img_rows : Z) : bool :=
  ge (x2 pixel) 0 && ge (y2 pixel) 0 &&
  lt (x2 pixel) (Int.to_double img_cols) &&
  lt (y2 pixel) (Int.to_double img_rows).

(** One iteration of the reprojection loop, on [(repro_error, in_image)].
    [correspondences[i]] is in range because the copy has the size of
    the original. *)
Definition reproject_step (cam : Camera) (img_cols img_rows : Z)
    (correspondences_new cs : list FeatureCorrespondence2D3D)
    (acc : double * Z) (i : nat) : double * Z :=
  match correspondences_new !! i, cs !! i with
  | Some cor_new, Some cor =>
      let pixel := ProjectPoint cam (homogeneous (world_point cor_new)) in
      if in_image_bounds pixel img_cols img_rows then
        (fst acc + squaredNorm (sub2 pixel (feature cor)), (snd acc + 1)%Z)
      else acc
  | _, _ => acc
  end.

Definition reproject (cam : Camera) (img_cols img_rows : Z)
    (correspondences_new cs : list FeatureCorrespondence2D3D) : double * Z :=
  fold_left (reproject_step cam img_cols img_rows correspondences_new cs)
    (seq 0 (length correspondences_new)) (0, 0%Z).

(** The temporaries that live across the row loop. *)
Record Locals := {
  gamma0 : double;
  min_reproj_error : double;
  success : bool
}.

Definition initial_locals : Locals :=
  {| gamma0 := 0; min_reproj_error := Double.max; success := false |}.

(** What a row that reaches the estimator has computed when the
    reprojection loop ends. *)
Record RowCandidate := {
  rc_gamma : double;
  rc_pose : CalibratedAbsolutePose;
  rc_repro_error : double;
  rc_in_image : Z
}.

Definition avg_reproj_error (c : RowCandidate) : double :=
  rc_repro_error c / Int.to_double (rc_in_image c).

(** The copy [correspondences_new] after the undistortion loop. *)
Definition undistorted (gamma : double) (img_cols img_rows : Z)
    (cs : list FeatureCorrespondence2D3D) : list FeatureCorrespondence2D3D :=
  let correspondences_new := cs in
  map (undistort (guess_intrinsics gamma img_cols img_rows))
      correspondences_new.

(** A row with a [gamma]: undistortion of a copy of the
    correspondences, pose estimation on the copy, reprojection. *)
Definition evaluate_gamma (ransac_params : RansacParameters)
    (img_cols img_rows : Z) (gamma : double) (env : Env)
    : Env * RowCandidate :=
  let correspondences_new :=
    undistorted gamma img_cols img_rows (correspondences env) in
  let e := EstimateCalibratedAbsolutePose ransac_params correspondences_new
             (ransac_summary env) (sampler env) in
  let pose := est_pose e in
  let env := estimated env (est_summary e) (est_sampler e)
               (CalibratedCall correspondences_new (est_summary e)) in
  let cam := {| cam_intrinsics := guess_intrinsics gamma img_cols img_rows;
                cam_position := ca_position pose;
                cam_orientation := ca_rotation pose |} in
  let '(repro_error, in_image) :=
    reproject cam img_cols img_rows correspondences_new (correspondences env) in
  (env, {| rc_gamma := gamma; rc_pose := pose;
           rc_repro_error := repro_error; rc_in_image := in_image |}).

(** The row body up to the end of the reprojection loop.  No candidate
    when the row has too few corners or hits a [continue]. *)
Definition attempt_row (ransac_params : RansacParameters)
    (img_cols img_rows : Z) (id_to_corner : gmap Z Vector2d)
    (target_cols : Z) (env : Env) (r : Z) : Env * option RowCandidate :=
  let P := row_points id_to_corner target_cols r in
  if enough_corners P then
    let C := col3 (JacobiSVD_matrixV P) in
    let env := logged env (SvdCall P) in
    match fit_gamma C with
    | None => (env, None)
    | Some gamma =>
        let '(env, c) :=
          evaluate_gamma ransac_params img_cols img_rows gamma env in
        (env, Some c)
    end
  else (env, None).

(** [avg_reproj_error < min_reproj_error && avg_reproj_error < 1000.0]. *)
Definition improves (c : RowCandidate) (loc : Locals) : bool :=
  lt (avg_reproj_error c) (min_reproj_error loc) &&
  lt (avg_reproj_error c) 1000.

(** [in_image > MIN_CORNERS]. *)
Definition enough_in_image (c : RowCandidate) : bool :=
  (MIN_CORNERS <? rc_in_image c)%Z.

(** The end of the row body: the candidate becomes the best one, or
    nothing changes. *)
Definition record_best (st : Env * Locals) (c : RowCandidate)
    : Env * Locals :=
  let '(env, loc) := st in
  if enough_in_image c then
    if improves c loc then
      let loc := {| gamma0 := rc_gamma c;
                    min_reproj_error := avg_reproj_error c;
                    success := true |} in
      let env := set_rotation env (ca_rotation (rc_pose c)) in
      let env := set_position env (ca_position (rc_pose c)) in
      let env := set_focal_length env (0.5 * gamma0 loc) in
      (env, loc)
    else (env, loc)
  else (env, loc).

Definition row_body (ransac_params : RansacParameters)
    (img_cols img_rows : Z) (id_to_corner : gmap Z Vector2d)
    (target_cols : Z) (st : Env * Locals) (r : Z) : Env * Locals :=
  let '(env, oc) :=
    attempt_row ransac_params img_cols img_rows id_to_corner target_cols
      (fst st) r in
  match oc with
  | Some c => record_best (env, snd st) c
  | None => (env, snd st)
  end.

(** The row loop, over the rows [rows] in order. *)
Definition scan_rows (ransac_params : RansacParameters)
    (img_cols img_rows : Z) (id_to_corner : gmap Z Vector2d)
    (target_cols : Z) (rows : list Z) (st : Env * Locals) : Env * Locals :=
  fold_left
    (row_body ransac_params img_cols img_rows id_to_corner target_cols)
    rows st.

(** The last two statements of the function. *)
Definition final_gate (st : Env * Locals) : bool * Env :=
  if too_few_inliers (ransac_summary (fst st)) then (false, fst st)
  else (success (snd st), fst st).

Definition target_cols_of (charucoboard : ChessboardSize) : Z :=
  Int.to_size_t (width charucoboard).
Definition target_rows_of (charucoboard : ChessboardSize) : Z :=
  Int.to_size_t (height charucoboard).

(** The state in which the function leaves the row loop. *)
Definition doublesphere_loop (charuco_ids : list Z)
    (charucoboard : ChessboardSize) (ransac_params : RansacParameters)
    (img_cols img_rows : Z) (env : Env) : option (Env * Locals) :=
  id_to_corner ← fill_id_to_corner charuco_ids 0 (correspondences env) ∅;
  Some (scan_rows ransac_params img_cols img_rows id_to_corner
          (target_cols_of charucoboard)
          (Int.upto (target_rows_of charucoboard))
          (env, initial_locals)).

Definition initialize_doublesphere_model (charuco_ids : list Z)
    (charucoboard : ChessboardSize) (ransac_params : RansacParameters)
    (img_cols img_rows : Z) (verbose : bool) (env : Env)
    : option (bool * Env) :=
  final_gate <$>
    doublesphere_loop charuco_ids charucoboard ransac_params
      img_cols img_rows env.

(** *** Observations on a run *)

(** The candidates the row loop computes over [rows], in order, when
    it starts from [env]. *)
Fixpoint candidates (ransac_params : RansacParameters)
    (img_cols img_rows : Z) (id_to_corner : gmap Z Vector2d)
    (target_cols : Z) (rows : list Z) (env : Env) : list RowCandidate :=
  match rows with
  | [] => []
  | r :: rows' =>
      let '(env1, oc) :=
        attempt_row ransac_params img_cols img_rows id_to_corner
          target_cols env r in
      let rest :=
        candidates ransac_params img_cols img_rows id_to_corner
          target_cols rows' env1 in
      match oc with
      | Some c => c :: rest
      | None => rest
      end
  end.

(** A candidate that passes both absolute tests of the row body. *)
Definition qualifies (c : RowCandidate) : bool :=
  enough_in_image c && lt (avg_reproj_error c) 1000.

(** The summary left by the most recent calibrated estimator call of a
    log, [dflt] when the log has none. *)
Fixpoint last_run_summary (log : list Event) (dflt : RansacSummary)
    : RansacSummary :=
  match log with
  | [] => dflt
  | CalibratedCall _ s :: _ => s
  | _ :: log' => last_run_summary log' dflt
  end.

(** The rows of the board on which the row body goes past its first
    test. *)
Definition observed_rows (id_to_corner : gmap Z Vector2d)
    (target_cols : Z) (rows : list Z) : list Z :=
  filter (fun r => enough_corners (row_points id_to_corner target_cols r) = true)
         rows.

(** The null-space vector of row [r]. *)
Definition row_C (id_to_corner : gmap Z Vector2d) (target_cols r : Z)
    : Vector4d :=
  col3 (JacobiSVD_matrixV (row_points id_to_corner target_cols r)).

(** Two states agree on what the estimators read and write. *)
Definition same_effects (a b : Env) : Prop :=
  correspondences a = correspondences b
  /\ ransac_summary a = ransac_summary b
  /\ sampler a = sampler b
  /\ calls a = calls b.

(** Two states agree on the output parameters. *)
Definition same_outputs (a b : Env) : Prop :=
  rotation a = rotation b
  /\ position a = position b
  /\ focal_length a = focal_length b
  /\ radial_distortion a = radial_distortion b.

(** The output parameters hold candidate [c]. *)
Definition holds_candidate (env : Env) (loc : Locals) (c : RowCandidate)
    : Prop :=
  rotation env = ca_rotation (rc_pose c)
  /\ position env = ca_position (rc_pose c)
  /\ focal_length env = 0.5 * rc_gamma c
  /\ gamma0 loc = rc_gamma c
  /\ min_reproj_error loc = avg_reproj_error c.

(** A collaborator call that the wide-angle initializer may make when
    the caller's correspondences are [cs0]: a decomposition, or a
    calibrated estimation on a copy of [cs0] undistorted under the
    intrinsics guessed from some [gamma]. *)
Definition wide_angle_call (img_cols img_rows : Z)
    (cs0 : list FeatureCorrespondence2D3D) (e : Event) : Prop :=
  match e with
  | SvdCall _ => True
  | CalibratedCall cs _ =>
      exists gamma, cs = undistorted gamma img_cols img_rows cs0
  | _ => False
  end.

(** [c], at index [i] of the candidates [cs], is the first of the
    qualifying candidates with the least mean reprojection error. *)
Definition first_minimal (cs : list RowCandidate) (i : nat)
    (c : RowCandidate) : Prop :=
  cs !! i = Some c
  /\ qualifies c = true
  /\ (forall j c', cs !! j = Some c' -> qualifies c' = true ->
        lt (avg_reproj_error c') (avg_reproj_error c) = false)
  /\ (forall j c', (j < i)%nat -> cs !! j = Some c' -> qualifies c' = true ->
        lt (avg_reproj_error c) (avg_reproj_error c') = true).

(** What the row loop maintains once it has computed the candidates
    [cs], having started on [env0]. *)
Definition best_among (cs : list RowCandidate) (env0 env : Env)
    (loc : Locals) : Prop :=
  if success loc then
    exists i c, first_minimal cs i c /\ holds_candidate env loc c
  else
    loc = initial_locals
    /\ same_outputs env env0
    /\ (forall j c', cs !! j = Some c' -> qualifies c' = false).

(** [env'] is [env] after the collaborator calls [new] (most recent
    first) of the wide-angle initializer: the caller's correspondences
    are as they were, and the summary is the one the most recent
    estimator call left. *)
Definition extends (img_cols img_rows : Z) (env env' : Env)
    (new : list Event) : Prop :=
  calls env' = new ++ calls env
  /\ correspondences env' = correspondences env
  /\ ransac_summary env' = last_run_summary new (ransac_summary env)
  /\ Forall (wide_angle_call img_cols img_rows (correspondences env)) new.

(** [env'] is [env] after the calls [new], none of which is an
    estimator call. *)
Definition extends_quietly (env env' : Env) (new : list Event) : Prop :=
  calls env' = new ++ calls env
  /\ Forall (fun e => is_estimator_call e = false) new
  /\ correspondences env' = correspondences env
  /\ ransac_summary env' = ransac_summary env
  /\ sampler env' = sampler env
  /\ same_outputs env' env.

End Initializers.

(** ** A scripted instance of the collaborators

    Executable stand-ins on which the initializers can be run: the
    estimators replay a script held in the sampler state, one entry per
    call; the decomposition reads the null-space vector off the first
    two points of the row; the camera translates world points by the
    camera position.  They serve the worked runs below and nothing
    else: every theorem is proved for all collaborators. *)

Module Scripted.

Local Open Scope float_scope.

Record Reply := {
  reply_success : bool;
  reply_rotation : Matrix3d;
  reply_vector : Vector3d;
  reply_focal_length : double;
  reply_radial_distortion : double;
  reply_inliers : list Z
}.

Definition zero3 : Vector3d := V3 0 0 0.
Definition identity3 : Matrix3d := M3 (V3 1 0 0) (V3 0 1 0) (V3 0 0 1).

Definition silence : Reply :=
  {| reply_success := false; reply_rotation := identity3;
     reply_vector := zero3; reply_focal_length := 0;
     reply_radial_distortion := 0; reply_inliers := [] |}.

(** The next reply of the script, and the rest of it. *)
Definition next (script : list Reply) : Reply * list Reply :=
  match script with
  | [] => (silence, [])
  | r :: rest => (r, rest)
  end.

Definition uncalibrated (_ : unit) (_ : list FeatureCorrespondence2D3D)
    (_ : list Z) (script : list Reply)
    : Estimate UncalibratedAbsolutePose (list Z) (list Reply) :=
  let '(r, rest) := next script in
  {| est_success := reply_success r;
     est_pose := {| ua_rotation := reply_rotation r;
                    ua_position := reply_vector r;
                    ua_focal_length := reply_focal_length r |};
     est_summary := reply_inliers r;
     est_sampler := rest |}.

Definition radial (_ : unit) (_ : list FeatureCorrespondence2D3D)
    (_ : RadialDistUncalibratedAbsolutePoseMetaData)
    (_ : list Z) (script : list Reply)
    : Estimate RadialDistUncalibratedAbsolutePose (list Z) (list Reply) :=
  let '(r, rest) := next script in
  {| est_success := reply_success r;
     est_pose := {| rd_rotation := reply_rotation r;
                    rd_translation := reply_vector r;
                    rd_focal_length := reply_focal_length r;
                    rd_radial_distortion := reply_radial_distortion r |};
     est_summary := reply_inliers r;
     est_sampler := rest |}.

Definition calibrated (_ : unit) (_ : list FeatureCorrespondence2D3D)
    (_ : list Z) (script : list Reply)
    : Estimate CalibratedAbsolutePose (list Z) (list Reply) :=
  let '(r, rest) := next script in
  {| est_success := reply_success r;
     est_pose := {| ca_rotation := reply_rotation r;
                    ca_position := reply_vector r |};
     est_summary := reply_inliers r;
     est_sampler := rest |}.

(** The last column is [(x0, y0, x1, y1)] for the first two points
    [(x0, y0, _, _)] and [(x1, y1, _, _)] of the row. *)
Definition svd (P : list Vector4d) : Matrix4d :=
  let z := V4 0 0 0 0 in
  match P with
  | p :: q :: _ => M4 z z z (V4 (c0 p) (c1 p) (c0 q) (c1 q))
  | _ => M4 z z z z
  end.

Definition to_normalized (k : DoubleSphereIntrinsics) (p : Vector2d)
    : Vector3d :=
  V3 ((x2 p - PRINCIPAL_POINT_X k) / FOCAL_LENGTH k)
     ((y2 p - PRINCIPAL_POINT_Y k) / FOCAL_LENGTH k) 1.

Definition project (cam : Camera) (X : Vector4d) : Vector2d :=
  V2 (c0 X + x3 (cam_position cam)) (c1 X + y3 (cam_position cam)).

Definition euclid (x y : double) : double := Double.sqrt (x * x + y * y).

#[export] Instance collaborators : Collaborators := {|
  RansacParameters := unit;
  RansacSummary := list Z;
  inliers := fun s => s;
  Sampler := list Reply;
  EstimateUncalibratedAbsolutePose := uncalibrated;
  EstimateRadialDistUncalibratedAbsolutePose := radial;
  EstimateCalibratedAbsolutePose := calibrated;
  JacobiSVD_matrixV := svd;
  PixelToNormalizedCoordinates := to_normalized;
  ProjectPoint := project;
  hypot := euclid
|}.

(** A correspondence whose world point lies under its pixel. *)
Definition at_pixel (x y : double) : FeatureCorrespondence2D3D :=
  {| feature := V2 x y; world_point := V3 x y 0 |}.

(** A row of [n] corners whose first two pixels are [(x0, y0)] and
    [(x1, y1)]; the others follow at [(2, 2), (3, 3), ...]. *)
Definition row_of (x0 y0 x1 y1 : double) (n : nat)
    : list FeatureCorrespondence2D3D :=
  at_pixel x0 y0 :: at_pixel x1 y1 ::
  map (fun k => at_pixel (Int.to_double (Z.of_nat k)) (Int.to_double (Z.of_nat k)))
      (seq 2 (n - 2)).

(** The caller's objects before a call. *)
Definition caller (cs : list FeatureCorrespondence2D3D)
    (script : list Reply) : Env :=
  {| correspondences := cs;
     ransac_summary := [];
     rotation := M3 zero3 zero3 zero3;
     position := V3 7 7 7;
     focal_length := 42;
     radial_distortion := 9;
     sampler := script;
     calls := [] |}.

Definition reply (ok : bool) (p : Vector3d) (n : nat) : Reply :=
  {| reply_success := ok; reply_rotation := identity3;
     reply_vector := p; reply_focal_length := 500;
     reply_radial_distortion := -0.25;
     reply_inliers := Int.upto (Z.of_nat n) |}.

Definition board (w h : Z) : ChessboardSize := {| width := w; height := h |}.

(** A reply whose rotation is a quarter turn about the optical axis. *)
Definition quarter_turn : Matrix3d :=
  M3 (V3 0 (-1) 0) (V3 1 0 0) (V3 0 0 1).

Definition reply_turned (ok : bool) (t : Vector3d) (n : nat) : Reply :=
  {| reply_success := ok; reply_rotation := quarter_turn;
     reply_vector := t; reply_focal_length := 500;
     reply_radial_distortion := -0.25;
     reply_inliers := Int.upto (Z.of_nat n) |}.

(** The lookup the wide-angle initializer builds from identifiers and
    correspondences (empty when the identifiers overrun). *)
Definition corner_map (ids : list Z) (cs : list FeatureCorrespondence2D3D)
    : gmap Z Vector2d :=
  default ∅ (fill_id_to_corner ids 0 cs ∅).

(** A correspondence whose world point projects outside the image. *)
Definition off_image (x y : double) : FeatureCorrespondence2D3D :=
  {| feature := V2 x y; world_point := V3 (-5) (-5) 0 |}.

(** *** Inputs of the worked runs *)

(** Two full rows of nine corners, on a board of nine columns. *)
Definition two_rows : list FeatureCorrespondence2D3D :=
  row_of 0 0 1 1 9 ++ row_of 0 0 2 0.5 9.

Definition two_rows_map : gmap Z Vector2d := corner_map (Int.upto 18) two_rows.

(** The first row wins with twelve inliers; the second, which runs
    last, is worse and leaves five. *)
Definition last_run_is_poor : Env :=
  caller two_rows [reply true zero3 12; reply true (V3 1 0 0) 5].

(** The second row beats the first. *)
Definition second_row_is_better : Env :=
  caller two_rows [reply true (V3 1 0 0) 12; reply true zero3 11].

(** One row of nine corners, all of which reproject into the image. *)
Definition nine_corners : list FeatureCorrespondence2D3D := row_of 0 0 1 1 9.

(** One row of nine corners, eight of which reproject into the image. *)
Definition eight_in_image : list FeatureCorrespondence2D3D :=
  row_of 0 0 1 1 8 ++ [off_image 8 8].

(** A first row of eight observed corners (identifiers 0 to 7) and a
    full second row (identifiers 9 to 17). *)
Definition short_first_row : list FeatureCorrespondence2D3D :=
  row_of 0 0 1 1 8 ++ row_of 0 0 2 0.5 9.

Definition short_first_row_ids : list Z :=
  Int.upto 8 ++ map (fun k => k + 9)%Z (Int.upto 9).

(** A near-radial first row and a second row with [t < 0]. *)
Definition degenerate_rows : list FeatureCorrespondence2D3D :=
  row_of 1 0 0 0 9 ++ row_of 0 0 1 (-1) 9.

End Scripted.

(** ** Facts on the numeric layer *)

Module IntFacts.

Lemma to_int_small z : - 2 ^ 31 <= z < 2 ^ 31 -> Int.to_int z = z.
Proof.
  intros Hz. unfold Int.to_int.
  rewrite Z.mod_small by lia. lia.
Qed.

Lemma to_size_t_small z : 0 <= z < 2 ^ 64 -> Int.to_size_t z = z.
Proof. intros Hz. unfold Int.to_size_t. now rewrite Z.mod_small. Qed.

Lemma upto_length n : length (Int.upto n) = Z.to_nat n.
Proof. unfold Int.upto. now rewrite length_map, length_seq. Qed.

Lemma upto_nonpos n : n <= 0 -> Int.upto n = [].
Proof.
  intros Hn. unfold Int.upto.
  replace (Z.to_nat n) with 0%nat by lia. reflexivity.
Qed.

(** On a board whose identifiers fit an [int], the identifier of the
    corner in row [r] and column [c] is [r * target_cols + c]. *)
Lemma corner_id_small (r target_cols c : Z) :
  0 <= r * target_cols + c < 2 ^ 31 ->
  corner_id r target_cols c = r * target_cols + c.
Proof.
  intros Hid. unfold corner_id.
  rewrite to_size_t_small by lia. apply to_int_small. lia.
Qed.

End IntFacts.

Module DoubleFacts.

Local Open Scope float_scope.

(** The comparison of the specification of floats is a lexicographic
    comparison of sign, exponent and mantissa, so [<] is transitive
    whatever the operands are. *)
Lemma SFltb_trans x y z :
  SFltb x y = true -> SFltb y z = true -> SFltb x z = true.
Proof.
  unfold SFltb.
  destruct x as [sx|sx| |sx mx ex], y as [sy|sy| |sy my ey],
           z as [sz|sz| |sz mz ez]; cbn;
    repeat match goal with b : bool |- _ => destruct b end; cbn;
    try congruence.
  all: destruct (Z.compare_spec ex ey) as [Hxy|Hxy|Hxy];
    destruct (Z.compare_spec ey ez) as [Hyz|Hyz|Hyz];
    destruct (Z.compare_spec ex ez) as [Hxz|Hxz|Hxz];
    try congruence; try lia.
  all: rewrite <- ?Pos.compare_cont_spec; cbn;
    rewrite ?Pos.compare_cont_spec; cbn.
  all: destruct (Pos.compare_spec mx my);
    destruct (Pos.compare_spec my mz);
    destruct (Pos.compare_spec mx mz); cbn; try congruence; try lia.
Qed.

Lemma lt_trans a b c : lt a b = true -> lt b c = true -> lt a c = true.
Proof. unfold lt. rewrite !ltb_spec. apply SFltb_trans. Qed.

Lemma SFltb_irrefl x : SFltb x x = false.
Proof.
  unfold SFltb.
  destruct x as [s|s| |s m e]; cbn; try destruct s; cbn; try reflexivity.
  all: rewrite Z.compare_refl, Pos.compare_cont_refl; reflexivity.
Qed.

Lemma lt_irrefl a : lt a a = false.
Proof. unfold lt. rewrite ltb_spec. apply SFltb_irrefl. Qed.

(** On operands that are not NaN the comparison is total: what is not
    below [y] is above whatever is below [y]. *)
Lemma SFltb_below x y z k :
  SFltb x y = true -> SFltb z y = false -> SFltb z k = true ->
  SFltb x z = true.
Proof.
  unfold SFltb. intros Hxy Hzy Hzk.
  assert (Hz : z <> S754_nan) by (intros ->; discriminate).
  clear Hzk. revert Hxy Hzy.
  destruct x as [sx|sx| |sx mx ex], y as [sy|sy| |sy my ey],
           z as [sz|sz| |sz mz ez]; cbn;
    repeat match goal with b : bool |- _ => destruct b end; cbn;
    try congruence.
  all: destruct (Z.compare_spec ex ey) as [Hxy|Hxy|Hxy];
    destruct (Z.compare_spec ez ey) as [Hzy|Hzy|Hzy];
    destruct (Z.compare_spec ex ez) as [Hxz|Hxz|Hxz];
    try congruence; try lia.
  all: rewrite ?Pos.compare_cont_spec; cbn.
  all: destruct (Pos.compare_spec mx my);
    destruct (Pos.compare_spec mz my);
    destruct (Pos.compare_spec mx mz); cbn; try congruence; try lia.
Qed.

Lemma lt_below a b c k :
  lt a b = true -> lt c b = false -> lt c k = true -> lt a c = true.
Proof. unfold lt. rewrite !ltb_spec. apply SFltb_below. Qed.

Lemma lt_1000_max : lt 1000 Double.max = true.
Proof. reflexivity. Qed.

Lemma lt_1000_lt_max a : lt a 1000 = true -> lt a Double.max = true.
Proof. intros Ha. exact (lt_trans _ _ _ Ha lt_1000_max). Qed.

End DoubleFacts.

(** ** The pinhole and radial-undistortion initializers *)

Section Adapters.

Context `{Collaborators}.
Variable ransac_params : RansacParameters.
Variable verbose : bool.

Lemma too_few_inliers_spec (s : RansacSummary) :
  too_few_inliers s = true <-> (length (inliers s) < 10)%nat.
Proof. unfold too_few_inliers. apply Nat.ltb_lt. Qed.

Lemma too_few_inliers_false (s : RansacSummary) :
  too_few_inliers s = false <-> (10 <= length (inliers s))%nat.
Proof. unfold too_few_inliers. apply Nat.ltb_ge. Qed.

(** The state in which the pinhole initializer returns, whatever it
    returns. *)
Lemma pinhole_final_env (env : Env) :
  let e := pinhole_estimate ransac_params env in
  snd (initialize_pinhole_camera ransac_params verbose env) =
  {| correspondences := correspondences env;
     ransac_summary := est_summary e;
     rotation := ua_rotation (est_pose e);
     position := ua_position (est_pose e);
     focal_length := ua_focal_length (est_pose e);
     radial_distortion := radial_distortion env;
     sampler := est_sampler e;
     calls := UncalibratedCall (correspondences env) :: calls env |}.
Proof.
  cbv zeta. unfold initialize_pinhole_camera.
  match goal with |- context [if ?b then _ else _] => destruct b end;
    reflexivity.
Qed.

(** The state in which the radial initializer returns when it gets past
    its size test. *)
Lemma radial_final_env (img_cols : Z) (env : Env) :
  (4 < length (correspondences env))%nat ->
  let e := radial_estimate ransac_params img_cols env in
  snd (initialize_radial_undistortion_camera ransac_params img_cols verbose
         env) =
  {| correspondences := correspondences env;
     ransac_summary := est_summary e;
     rotation := rd_rotation (est_pose e);
     position :=
       mulv (mopp (transpose (rd_rotation (est_pose e))))
            (rd_translation (est_pose e));
     focal_length := rd_focal_length (est_pose e);
     radial_distortion := rd_radial_distortion (est_pose e);
     sampler := est_sampler e;
     calls := RadialDistCall (correspondences env) (radial_meta_data img_cols)
              :: calls env |}.
Proof.
  intros Hlen. cbv zeta. unfold initialize_radial_undistortion_camera.
  destruct (Nat.leb_spec (length (correspondences env)) 4) as [Hle|_];
    [lia|].
  match goal with |- context [if ?b then _ else _] => destruct b end;
    reflexivity.
Qed.

Lemma radial_return (img_cols : Z) (env : Env) :
  (4 < length (correspondences env))%nat ->
  let e := radial_estimate ransac_params img_cols env in
  fst (initialize_radial_undistortion_camera ransac_params img_cols verbose
         env) =
  if too_few_inliers (est_summary e) then false else est_success e.
Proof.
  intros Hlen. cbv zeta. unfold initialize_radial_undistortion_camera.
  destruct (Nat.leb_spec (length (correspondences env)) 4) as [Hle|_];
    [lia|].
  cbn [ransac_summary set_focal_length set_radial_distortion set_position
       set_rotation estimated].
  destruct (too_few_inliers _); reflexivity.
Qed.

Lemma pinhole_return (env : Env) :
  let e := pinhole_estimate ransac_params env in
  fst (initialize_pinhole_camera ransac_params verbose env) =
  if too_few_inliers (est_summary e) then false else est_success e.
Proof.
  cbv zeta. unfold initialize_pinhole_camera.
  cbn [ransac_summary set_focal_length set_position set_rotation estimated].
  destruct (too_few_inliers _); reflexivity.
Qed.

(** C6.  With fewer than five correspondences the radial initializer
    returns [false] at once: the caller's objects and the sampler are as
    they were, and the log of collaborator calls has not grown, so no
    estimator has been invoked. *)
Theorem radial_short_input_fails (img_cols : Z) (env : Env) :
  (length (correspondences env) < 5)%nat ->
  initialize_radial_undistortion_camera ransac_params img_cols verbose env
    = (false, env)
  /\ calls (snd (initialize_radial_undistortion_camera ransac_params
                   img_cols verbose env)) = calls env.
Proof.
  intros Hlen. unfold initialize_radial_undistortion_camera.
  destruct (Nat.leb_spec (length (correspondences env)) 4) as [_|Hgt].
  - split; reflexivity.
  - lia.
Qed.

(** C7.  The pinhole initializer returns [true] exactly when the
    uncalibrated estimator reported success and the summary it left holds
    at least ten inliers; with fewer than ten it returns [false] whatever
    the estimator reported.  The summary tested is the one the estimator
    wrote, which is also the one the caller finds. *)
Theorem pinhole_success_iff (env : Env) :
  let e := pinhole_estimate ransac_params env in
  let r := initialize_pinhole_camera ransac_params verbose env in
  ransac_summary (snd r) = est_summary e
  /\ (fst r = true <->
      est_success e = true /\ (10 <= length (inliers (est_summary e)))%nat)
  /\ ((length (inliers (est_summary e)) < 10)%nat -> fst r = false).
Proof.
  cbv zeta. rewrite pinhole_return, pinhole_final_env. cbn [ransac_summary].
  destruct (too_few_inliers _) eqn:Hfew.
  - apply too_few_inliers_spec in Hfew.
    repeat split; try discriminate; lia.
  - apply too_few_inliers_false in Hfew.
    repeat split; try tauto; lia.
Qed.

(** C8.  Whenever the radial initializer attempts the estimation (five
    correspondences or more), the estimator is called once, on the
    caller's correspondences, and the position it hands back is the
    product of the negated transpose of the estimated rotation [R] with
    the estimated translation [t], that is [-R^T * t]; the rotation
    handed back is [R] itself. *)
Theorem radial_position_convention (img_cols : Z) (env : Env) :
  (4 < length (correspondences env))%nat ->
  let e := radial_estimate ransac_params img_cols env in
  let env' :=
    snd (initialize_radial_undistortion_camera ransac_params img_cols
           verbose env) in
  calls env' =
    RadialDistCall (correspondences env) (radial_meta_data img_cols)
    :: calls env
  /\ rotation env' = rd_rotation (est_pose e)
  /\ position env' =
       mulv (mopp (transpose (rd_rotation (est_pose e))))
            (rd_translation (est_pose e)).
Proof.
  intros Hlen. cbv zeta. rewrite radial_final_env by exact Hlen.
  cbn [calls rotation position]. repeat split.
Qed.

(** C10.  When the estimator has run and left fewer than ten inliers,
    both initializers return [false] and yet hand back the rejected
    estimate: rotation, position and focal length (and the radial
    distortion, for the radial initializer) hold the estimator's values,
    not the caller's. *)
Theorem rejected_estimate_is_written (img_cols : Z) (env : Env) :
  (let e := pinhole_estimate ransac_params env in
   let r := initialize_pinhole_camera ransac_params verbose env in
   (length (inliers (est_summary e)) < 10)%nat ->
   fst r = false
   /\ rotation (snd r) = ua_rotation (est_pose e)
   /\ position (snd r) = ua_position (est_pose e)
   /\ focal_length (snd r) = ua_focal_length (est_pose e))
  /\
  (let e := radial_estimate ransac_params img_cols env in
   let r := initialize_radial_undistortion_camera ransac_params img_cols
              verbose env in
   (4 < length (correspondences env))%nat ->
   (length (inliers (est_summary e)) < 10)%nat ->
   fst r = false
   /\ rotation (snd r) = rd_rotation (est_pose e)
   /\ position (snd r) =
        mulv (mopp (transpose (rd_rotation (est_pose e))))
             (rd_translation (est_pose e))
   /\ focal_length (snd r) = rd_focal_length (est_pose e)
   /\ radial_distortion (snd r) = rd_radial_distortion (est_pose e)).
Proof.
  split; cbv zeta.
  - intros Hfew. apply too_few_inliers_spec in Hfew.
    rewrite pinhole_return, pinhole_final_env, Hfew.
    cbn [rotation position focal_length]. repeat split.
  - intros Hlen Hfew. apply too_few_inliers_spec in Hfew.
    rewrite radial_return, radial_final_env, Hfew by exact Hlen.
    cbn [rotation position focal_length radial_distortion]. repeat split.
Qed.

End Adapters.

(** ** The wide-angle initializer: one row *)

Section Rows.

Context `{Collaborators}.
Variable ransac_params : RansacParameters.
Variables img_cols img_rows : Z.
Variable id_to_corner : gmap Z Vector2d.
Variable target_cols : Z.

Local Open Scope float_scope.

Local Abbreviation P_of r := (row_points id_to_corner target_cols r).
Local Abbreviation C_of r := (row_C id_to_corner target_cols r).
Local Abbreviation attempt := (attempt_row ransac_params img_cols img_rows
                             id_to_corner target_cols).
Local Abbreviation body := (row_body ransac_params img_cols img_rows
                          id_to_corner target_cols).
Local Abbreviation scan := (scan_rows ransac_params img_cols img_rows
                          id_to_corner target_cols).
Local Abbreviation cands := (candidates ransac_params img_cols img_rows
                           id_to_corner target_cols).
Local Abbreviation evaluate := (evaluate_gamma ransac_params img_cols img_rows).

Lemma enough_corners_spec (P : list Vector4d) :
  enough_corners P = true <-> (9 <= length P)%nat.
Proof.
  unfold enough_corners, MIN_CORNERS. rewrite Z.ltb_lt. lia.
Qed.

Lemma enough_corners_false (P : list Vector4d) :
  enough_corners P = false <-> (length P < 9)%nat.
Proof.
  unfold enough_corners, MIN_CORNERS. rewrite Z.ltb_ge. lia.
Qed.

Lemma enough_in_image_spec (c : RowCandidate) :
  enough_in_image c = true <-> (8 < rc_in_image c)%Z.
Proof. unfold enough_in_image, MIN_CORNERS. apply Z.ltb_lt. Qed.

Lemma enough_in_image_false (c : RowCandidate) :
  enough_in_image c = false <-> (rc_in_image c <= 8)%Z.
Proof. unfold enough_in_image, MIN_CORNERS. apply Z.ltb_ge. Qed.

(** [fit_gamma] gives up exactly on the two [continue] conditions. *)
Lemma fit_gamma_none (C : Vector4d) :
  fit_gamma C = None <-> no_real_solution C = true \/ near_radial C = true.
Proof.
  unfold fit_gamma.
  destruct (no_real_solution C); [intuition|].
  destruct (near_radial C); intuition discriminate.
Qed.

(** *** The three ways through [attempt_row] *)

Lemma attempt_short (env : Env) (r : Z) :
  enough_corners (P_of r) = false -> attempt env r = (env, None).
Proof. intros Hshort. unfold attempt_row. now rewrite Hshort. Qed.

Lemma attempt_degenerate (env : Env) (r : Z) :
  enough_corners (P_of r) = true ->
  fit_gamma (C_of r) = None ->
  attempt env r = (logged env (SvdCall (P_of r)), None).
Proof.
  intros Henough Hfit. unfold attempt_row, row_C in *.
  now rewrite Henough, Hfit.
Qed.

Lemma attempt_estimates (env : Env) (r : Z) (gamma : double) :
  enough_corners (P_of r) = true ->
  fit_gamma (C_of r) = Some gamma ->
  attempt env r =
    (fst (evaluate gamma (logged env (SvdCall (P_of r)))),
     Some (snd (evaluate gamma (logged env (SvdCall (P_of r)))))).
Proof.
  intros Henough Hfit. unfold attempt_row, row_C in *.
  rewrite Henough, Hfit.
  now destruct (evaluate_gamma _ _ _ _ _).
Qed.

(** The state an estimation leaves. *)
Lemma evaluate_env (gamma : double) (env : Env) :
  let cs := undistorted gamma img_cols img_rows (correspondences env) in
  let e := EstimateCalibratedAbsolutePose ransac_params cs
             (ransac_summary env) (sampler env) in
  fst (evaluate gamma env) =
  estimated env (est_summary e) (est_sampler e)
    (CalibratedCall cs (est_summary e)).
Proof.
  cbv zeta. unfold evaluate_gamma.
  now destruct (reproject _ _ _ _ _).
Qed.

(** *** What a row reads and what it leaves alone *)

Lemma attempt_outputs (env : Env) (r : Z) :
  same_outputs (fst (attempt env r)) env.
Proof.
  destruct (enough_corners (P_of r)) eqn:Henough.
  - destruct (fit_gamma (C_of r)) as [gamma|] eqn:Hfit.
    + rewrite (attempt_estimates _ _ gamma) by assumption.
      cbn [fst]. rewrite evaluate_env. repeat split.
    + rewrite attempt_degenerate by assumption. repeat split.
  - rewrite attempt_short by assumption. repeat split.
Qed.

Lemma evaluate_effects (gamma : double) (a b : Env) :
  same_effects a b ->
  snd (evaluate gamma a) = snd (evaluate gamma b)
  /\ same_effects (fst (evaluate gamma a)) (fst (evaluate gamma b)).
Proof.
  intros (Hc & Hs & Hg & Hl).
  split.
  - unfold evaluate_gamma. cbn [correspondences estimated].
    rewrite Hc, Hs, Hg.
    now destruct (reproject _ _ _ _ _).
  - rewrite !evaluate_env. unfold same_effects. cbn.
    now rewrite Hc, Hs, Hg, Hl.
Qed.

Lemma logged_effects (a b : Env) (e : Event) :
  same_effects a b -> same_effects (logged a e) (logged b e).
Proof.
  intros (Hc & Hs & Hg & Hl). unfold same_effects. cbn.
  now rewrite Hc, Hs, Hg, Hl.
Qed.

Lemma attempt_effects (a b : Env) (r : Z) :
  same_effects a b ->
  snd (attempt a r) = snd (attempt b r)
  /\ same_effects (fst (attempt a r)) (fst (attempt b r)).
Proof.
  intros Hab.
  destruct (enough_corners (P_of r)) eqn:Henough.
  - destruct (fit_gamma (C_of r)) as [gamma|] eqn:Hfit.
    + rewrite !(attempt_estimates _ _ gamma) by assumption. cbn [fst snd].
      destruct (evaluate_effects gamma _ _
                  (logged_effects _ _ (SvdCall (P_of r)) Hab)) as [-> Hfst].
      split; [reflexivity|exact Hfst].
    + rewrite !attempt_degenerate by assumption.
      split; [reflexivity|now apply logged_effects].
  - rewrite !attempt_short by assumption. split; [reflexivity|exact Hab].
Qed.

Lemma record_best_effects (env : Env) (loc : Locals) (c : RowCandidate) :
  same_effects (fst (record_best (env, loc) c)) env.
Proof.
  unfold record_best.
  destruct (enough_in_image c), (improves c loc); repeat split.
Qed.

Lemma candidates_effects (rows : list Z) (a b : Env) :
  same_effects a b -> cands rows a = cands rows b.
Proof.
  revert a b. induction rows as [|r rows IH]; intros a b Hab; [reflexivity|].
  cbn [candidates].
  destruct (attempt_effects a b r Hab) as [Hsnd Hfst].
  destruct (attempt a r) as [a1 oa], (attempt b r) as [b1 ob].
  cbn [fst snd] in *. subst ob.
  rewrite (IH a1 b1 Hfst). reflexivity.
Qed.

(** *** The row body *)

Lemma body_short (st : Env * Locals) (r : Z) :
  enough_corners (P_of r) = false -> body st r = st.
Proof.
  intros Hshort. unfold row_body. rewrite attempt_short by assumption.
  now destruct st.
Qed.

Lemma body_degenerate (st : Env * Locals) (r : Z) :
  enough_corners (P_of r) = true ->
  fit_gamma (C_of r) = None ->
  body st r = (logged (fst st) (SvdCall (P_of r)), snd st).
Proof.
  intros Henough Hfit. unfold row_body.
  now rewrite attempt_degenerate by assumption.
Qed.

Lemma body_candidate (st : Env * Locals) (r : Z) (env1 : Env)
    (c : RowCandidate) :
  attempt (fst st) r = (env1, Some c) ->
  body st r = record_best (env1, snd st) c.
Proof. intros Hatt. unfold row_body. now rewrite Hatt. Qed.

Lemma body_no_candidate (st : Env * Locals) (r : Z) (env1 : Env) :
  attempt (fst st) r = (env1, None) -> body st r = (env1, snd st).
Proof. intros Hatt. unfold row_body. now rewrite Hatt. Qed.

Lemma record_best_rejects (st : Env * Locals) (c : RowCandidate) :
  enough_in_image c = false \/ improves c (snd st) = false ->
  record_best st c = st.
Proof.
  destruct st as [env loc]. unfold record_best. cbn [snd].
  destruct (enough_in_image c), (improves c loc); intuition discriminate.
Qed.

Lemma record_best_accepts (st : Env * Locals) (c : RowCandidate) :
  enough_in_image c = true -> improves c (snd st) = true ->
  record_best st c =
    (set_focal_length
       (set_position (set_rotation (fst st) (ca_rotation (rc_pose c)))
          (ca_position (rc_pose c)))
       (0.5 * rc_gamma c),
     {| gamma0 := rc_gamma c;
        min_reproj_error := avg_reproj_error c;
        success := true |}).
Proof.
  destruct st as [env loc]. unfold record_best. cbn [fst snd].
  now intros -> ->.
Qed.

(** *** The loop *)

Lemma scan_app (rows1 rows2 : list Z) (st : Env * Locals) :
  scan (rows1 ++ rows2) st = scan rows2 (scan rows1 st).
Proof. unfold scan_rows. apply fold_left_app. Qed.

Lemma scan_cons (r : Z) (rows : list Z) (st : Env * Locals) :
  scan (r :: rows) st = scan rows (body st r).
Proof. reflexivity. Qed.

Lemma scan_observed (rows : list Z) (st : Env * Locals) :
  scan rows st = scan (observed_rows id_to_corner target_cols rows) st.
Proof.
  revert st. induction rows as [|r rows IH]; intros st; [reflexivity|].
  unfold observed_rows in *. rewrite filter_cons.
  destruct (enough_corners (P_of r)) eqn:Henough.
  - rewrite decide_True by reflexivity. rewrite !scan_cons. apply IH.
  - rewrite decide_False by discriminate.
    rewrite scan_cons, body_short by assumption. apply IH.
Qed.

Lemma candidates_observed (rows : list Z) (env : Env) :
  cands rows env = cands (observed_rows id_to_corner target_cols rows) env.
Proof.
  revert env. induction rows as [|r rows IH]; intros env; [reflexivity|].
  unfold observed_rows in *. rewrite filter_cons.
  destruct (enough_corners (P_of r)) eqn:Henough.
  - rewrite decide_True by reflexivity. cbn [candidates].
    destruct (attempt env r) as [env1 oc]. now rewrite IH.
  - rewrite decide_False by discriminate. cbn [candidates].
    rewrite attempt_short by assumption. apply IH.
Qed.

(** C3.  A row whose point list [P] has fewer than nine points is
    skipped entirely: the row body leaves the whole state as it was (the
    log of collaborator calls included, so neither the decomposition nor
    an estimator has run) and the row yields no candidate.  Hence the
    loop over any rows does what the loop over those of them with at
    least nine points does, and its candidates all come from these. *)
Theorem short_row_is_skipped :
  (forall (r : Z) (st : Env * Locals),
      (length (P_of r) < 9)%nat ->
      body st r = st /\ cands [r] (fst st) = [])
  /\ (forall (rows : list Z) (st : Env * Locals),
         scan rows st = scan (observed_rows id_to_corner target_cols rows) st
         /\ cands rows (fst st) =
            cands (observed_rows id_to_corner target_cols rows) (fst st)
         /\ Forall (fun r => (9 <= length (P_of r))%nat)
                   (observed_rows id_to_corner target_cols rows)).
Proof.
  split.
  - intros r st Hlen. apply enough_corners_false in Hlen. split.
    + now apply body_short.
    + cbn [candidates]. now rewrite attempt_short.
  - intros rows st. split; [apply scan_observed|].
    split; [apply candidates_observed|].
    apply Forall_forall. intros r Hin.
    unfold observed_rows in Hin.
    apply list_elem_of_filter in Hin as [Hen _].
    now apply enough_corners_spec.
Qed.

(** C2, as the code has it.  The test on the reprojections that land in
    the image is [in_image > 8]: a row whose candidate has eight or fewer
    of them records nothing (locals and output parameters stay as the
    estimation left them), and a row that changes the locals has a
    candidate with at least nine. *)
Theorem few_in_image_records_nothing (st : Env * Locals) (r : Z)
    (env1 : Env) (c : RowCandidate) :
  attempt (fst st) r = (env1, Some c) ->
  ((rc_in_image c <= 8)%Z ->
   body st r = (env1, snd st) /\ same_outputs env1 (fst st))
  /\ (snd (body st r) <> snd st -> (9 <= rc_in_image c)%Z).
Proof.
  intros Hatt. rewrite (body_candidate _ _ _ _ Hatt). split.
  - intros Hfew. apply enough_in_image_false in Hfew. split.
    + apply (record_best_rejects (env1, snd st)). now left.
    + replace env1 with (fst (attempt (fst st) r)) by now rewrite Hatt.
      apply attempt_outputs.
  - intros Hchanged.
    destruct (enough_in_image c) eqn:Hen.
    + apply enough_in_image_spec in Hen. lia.
    + rewrite (record_best_rejects (env1, snd st)) in Hchanged by now left.
      now destruct Hchanged.
Qed.

(** *** The best candidate *)

Lemma qualifies_spec (c : RowCandidate) :
  qualifies c = true <->
  enough_in_image c = true /\ lt (avg_reproj_error c) 1000 = true.
Proof. unfold qualifies. apply andb_true_iff. Qed.

Lemma improves_spec (c : RowCandidate) (loc : Locals) :
  improves c loc = true <->
  lt (avg_reproj_error c) (min_reproj_error loc) = true
  /\ lt (avg_reproj_error c) 1000 = true.
Proof. unfold improves. apply andb_true_iff. Qed.

Lemma best_among_outputs (cs : list RowCandidate) (env0 env env1 : Env)
    (loc : Locals) :
  same_outputs env1 env -> best_among cs env0 env loc ->
  best_among cs env0 env1 loc.
Proof.
  intros (HR & Hp & Hf & Hk). unfold best_among, holds_candidate, same_outputs.
  destruct (success loc).
  - intros (i & c & Hmin & Hhold). exists i, c. split; [exact Hmin|].
    rewrite HR, Hp, Hf. exact Hhold.
  - intros (Hloc & Hout & Hnone). rewrite HR, Hp, Hf, Hk. auto.
Qed.

(** A candidate that does not qualify, or does not beat the best one,
    leaves the best one in place. *)
Lemma best_among_snoc_keep (cs : list RowCandidate) (env0 env : Env)
    (loc : Locals) (c : RowCandidate) :
  best_among cs env0 env loc ->
  (qualifies c = true ->
   lt (avg_reproj_error c) (min_reproj_error loc) = false) ->
  best_among (cs ++ [c]) env0 env loc.
Proof.
  unfold best_among. intros Hbest Hkeep.
  destruct (success loc) eqn:Hsucc.
  - destruct Hbest as (i & c0 & (Hi & Hq & Hmin & Hfirst) & Hhold).
    exists i, c0. split; [|exact Hhold].
    assert (Hlt : (i < length cs)%nat) by (eapply lookup_lt_Some; eauto).
    repeat split.
    + now rewrite lookup_app_l.
    + exact Hq.
    + intros j c' Hj Hq'.
      apply lookup_app_Some in Hj as [Hj|[Hge Hj]]; [eauto|].
      apply list_lookup_singleton_Some in Hj as [_ <-].
      destruct Hhold as (_ & _ & _ & _ & <-). auto.
    + intros j c' Hji Hj Hq'.
      rewrite lookup_app_l in Hj by lia. eauto.
  - destruct Hbest as (Hloc & Hout & Hnone).
    split; [assumption|split; [assumption|]].
    intros j c' Hj.
    apply lookup_app_Some in Hj as [Hj|[Hge Hj]]; [eauto|].
    apply list_lookup_singleton_Some in Hj as [_ <-].
    destruct (qualifies c) eqn:Hq; [|reflexivity].
    specialize (Hkeep eq_refl). subst loc.
    change (min_reproj_error initial_locals) with Double.max in Hkeep.
    apply qualifies_spec in Hq as [_ H1000].
    apply DoubleFacts.lt_1000_lt_max in H1000. congruence.
Qed.

(** A candidate that beats the best one takes its place. *)
Lemma best_among_snoc_take (cs : list RowCandidate) (env0 env env' : Env)
    (loc loc' : Locals) (c : RowCandidate) :
  best_among cs env0 env loc ->
  qualifies c = true ->
  lt (avg_reproj_error c) (min_reproj_error loc) = true ->
  success loc' = true ->
  holds_candidate env' loc' c ->
  best_among (cs ++ [c]) env0 env' loc'.
Proof.
  unfold best_among. intros Hbest Hq Hlt Hsucc' Hhold'. rewrite Hsucc'.
  exists (length cs), c. split; [|exact Hhold'].
  assert (Hhere : (cs ++ [c]) !! length cs = Some c).
  { rewrite lookup_app_r by lia. now rewrite Nat.sub_diag. }
  destruct (success loc) eqn:Hsucc.
  - destruct Hbest as (i & c0 & (Hi & Hq0 & Hmin & Hfirst) & Hhold).
    destruct Hhold as (_ & _ & _ & _ & Hminerr). rewrite Hminerr in Hlt.
    repeat split; try assumption.
    + intros j c' Hj Hq'.
      apply lookup_app_Some in Hj as [Hj|[Hge Hj]].
      * destruct (lt (avg_reproj_error c') (avg_reproj_error c)) eqn:Hc'c;
          [|reflexivity].
        rewrite <- (Hmin j c' Hj Hq').
        symmetry. exact (DoubleFacts.lt_trans _ _ _ Hc'c Hlt).
      * apply list_lookup_singleton_Some in Hj as [_ <-].
        apply DoubleFacts.lt_irrefl.
    + intros j c' Hjlen Hj Hq'.
      rewrite lookup_app_l in Hj by lia.
      apply qualifies_spec in Hq' as Hq''. destruct Hq'' as [_ H1000].
      exact (DoubleFacts.lt_below _ _ _ _ Hlt (Hmin j c' Hj Hq') H1000).
  - destruct Hbest as (Hloc & Hout & Hnone).
    repeat split; try assumption.
    + intros j c' Hj Hq'.
      apply lookup_app_Some in Hj as [Hj|[Hge Hj]].
      * rewrite (Hnone j c' Hj) in Hq'. discriminate.
      * apply list_lookup_singleton_Some in Hj as [_ <-].
        apply DoubleFacts.lt_irrefl.
    + intros j c' Hjlen Hj Hq'.
      rewrite lookup_app_l in Hj by lia.
      rewrite (Hnone j c' Hj) in Hq'. discriminate.
Qed.

Lemma record_best_best (cs : list RowCandidate) (env0 env : Env)
    (loc : Locals) (c : RowCandidate) :
  best_among cs env0 env loc ->
  best_among (cs ++ [c]) env0
    (fst (record_best (env, loc) c)) (snd (record_best (env, loc) c)).
Proof.
  intros Hbest.
  destruct (enough_in_image c) eqn:Hen.
  - destruct (improves c loc) eqn:Himp.
    + rewrite (record_best_accepts (env, loc)) by assumption. cbn [fst snd].
      apply improves_spec in Himp as [Hlt H1000].
      eapply best_among_snoc_take; eauto.
      * apply qualifies_spec. auto.
      * repeat split.
    + rewrite (record_best_rejects (env, loc)) by now right. cbn [fst snd].
      apply best_among_snoc_keep; [assumption|].
      intros Hq. apply qualifies_spec in Hq as [_ H1000].
      unfold improves in Himp. rewrite H1000, andb_true_r in Himp.
      exact Himp.
  - rewrite (record_best_rejects (env, loc)) by now left. cbn [fst snd].
    apply best_among_snoc_keep; [assumption|].
    intros Hq. apply qualifies_spec in Hq as [Hen' _]. congruence.
Qed.

Lemma scan_best (rows : list Z) :
  forall (cs : list RowCandidate) (env0 env : Env) (loc : Locals),
    best_among cs env0 env loc ->
    best_among (cs ++ cands rows env) env0
      (fst (scan rows (env, loc))) (snd (scan rows (env, loc))).
Proof.
  induction rows as [|r rows IH]; intros cs env0 env loc Hbest.
  - cbn. now rewrite app_nil_r.
  - rewrite scan_cons. cbn [candidates].
    pose proof (attempt_outputs env r) as Hout.
    destruct (attempt env r) as [env1 [c|]] eqn:Hatt; cbn [fst] in Hout.
    + rewrite (body_candidate (env, loc) r env1 c) by exact Hatt.
      cbn [snd].
      pose proof (record_best_effects env1 loc c) as Heff.
      pose proof (record_best_best cs env0 env1 loc c
                    (best_among_outputs _ _ _ _ _ Hout Hbest)) as Hstep.
      destruct (record_best (env1, loc) c) as [env2 loc2].
      cbn [fst snd] in *.
      rewrite <- (candidates_effects rows env2 env1 Heff).
      replace (cs ++ c :: cands rows env2)
        with ((cs ++ [c]) ++ cands rows env2)
        by now rewrite <- app_assoc.
      now apply IH.
    + rewrite (body_no_candidate (env, loc) r env1) by exact Hatt.
      cbn [snd]. apply IH.
      exact (best_among_outputs _ _ _ _ _ Hout Hbest).
Qed.

Lemma best_among_initial (env : Env) : best_among [] env env initial_locals.
Proof. cbn. repeat split. intros j c' Hj. discriminate. Qed.

(** C5.  A candidate that passes the in-image test becomes the new
    best one (gamma, success, rotation, position and the focal length
    [0.5 * gamma] are stored) exactly when its mean reprojection error is
    below the best mean error so far and below 1000, both strictly;
    otherwise nothing changes.  Consequently, after the loop over any
    rows, started with the initial locals: if a best candidate was
    recorded, the rotation, position and focal length handed back are
    those of the first candidate of least mean error among the qualifying
    ones (in-image test passed, mean error below 1000); if none was
    recorded, no candidate qualifies and the output parameters are the
    caller's. *)
Theorem best_candidate_wins :
  (forall (st : Env * Locals) (c : RowCandidate),
      enough_in_image c = true ->
      (lt (avg_reproj_error c) (min_reproj_error (snd st)) = true
       /\ lt (avg_reproj_error c) 1000 = true ->
       record_best st c =
         (set_focal_length
            (set_position (set_rotation (fst st) (ca_rotation (rc_pose c)))
               (ca_position (rc_pose c)))
            (0.5 * rc_gamma c),
          {| gamma0 := rc_gamma c;
             min_reproj_error := avg_reproj_error c;
             success := true |}))
      /\ (~ (lt (avg_reproj_error c) (min_reproj_error (snd st)) = true
             /\ lt (avg_reproj_error c) 1000 = true) ->
          record_best st c = st))
  /\ (forall (rows : list Z) (env : Env),
         let st' := scan rows (env, initial_locals) in
         let cs := cands rows env in
         (success (snd st') = true ->
          exists i c,
            first_minimal cs i c /\ holds_candidate (fst st') (snd st') c)
         /\ (success (snd st') = false ->
             same_outputs (fst st') env
             /\ forall j c, cs !! j = Some c -> qualifies c = false)).
Proof.
  split.
  - intros st c Hen. split.
    + intros Himp. apply improves_spec in Himp.
      now apply record_best_accepts.
    + intros Hnot. apply record_best_rejects. right.
      destruct (improves c (snd st)) eqn:Himp; [|reflexivity].
      apply improves_spec in Himp. contradiction.
  - intros rows env. cbv zeta.
    pose proof (scan_best rows [] env env initial_locals
                  (best_among_initial env)) as Hbest.
    rewrite app_nil_l in Hbest. unfold best_among in Hbest.
    split; intros Hsucc; rewrite Hsucc in Hbest.
    + exact Hbest.
    + destruct Hbest as (_ & Hout & Hnone). auto.
Qed.

(** *** The log of a run *)

Lemma last_run_summary_app (n2 n1 : list Event) (d : RansacSummary) :
  last_run_summary (n2 ++ n1) d = last_run_summary n2 (last_run_summary n1 d).
Proof.
  induction n2 as [|e n2 IH]; [reflexivity|].
  destruct e; cbn; auto.
Qed.

Lemma extends_refl (env : Env) : extends img_cols img_rows env env [].
Proof. repeat split. constructor. Qed.

Lemma extends_trans (a b c : Env) (n1 n2 : list Event) :
  extends img_cols img_rows a b n1 -> extends img_cols img_rows b c n2 ->
  extends img_cols img_rows a c (n2 ++ n1).
Proof.
  intros (Hl1 & Hc1 & Hs1 & Hf1) (Hl2 & Hc2 & Hs2 & Hf2).
  unfold extends. rewrite Hl2, Hl1, Hc2, Hc1, Hs2, Hs1, last_run_summary_app.
  rewrite Hc1 in Hf2.
  repeat split; [now rewrite app_assoc|].
  apply Forall_app; auto.
Qed.

Lemma extends_effects (a b b' : Env) (new : list Event) :
  same_effects b' b -> extends img_cols img_rows a b new ->
  extends img_cols img_rows a b' new.
Proof.
  intros (Hc & Hs & _ & Hl) (Hl1 & Hc1 & Hs1 & Hf1).
  unfold extends. rewrite Hc, Hs, Hl. auto.
Qed.

Lemma attempt_extends (env : Env) (r : Z) :
  exists new, extends img_cols img_rows env (fst (attempt env r)) new.
Proof.
  destruct (enough_corners (P_of r)) eqn:Henough.
  - destruct (fit_gamma (C_of r)) as [gamma|] eqn:Hfit.
    + rewrite (attempt_estimates _ _ gamma) by assumption. cbn [fst].
      rewrite evaluate_env. eexists [_; _].
      repeat split.
      repeat constructor. now exists gamma.
    + rewrite attempt_degenerate by assumption. exists [SvdCall (P_of r)].
      repeat split. repeat constructor.
  - rewrite attempt_short by assumption. exists []. apply extends_refl.
Qed.

Lemma body_extends (st : Env * Locals) (r : Z) :
  exists new, extends img_cols img_rows (fst st) (fst (body st r)) new.
Proof.
  destruct (attempt_extends (fst st) r) as [new Hnew].
  exists new. unfold row_body.
  destruct (attempt (fst st) r) as [env1 [c|]]; cbn [fst] in *.
  - eapply extends_effects; [apply record_best_effects|exact Hnew].
  - exact Hnew.
Qed.

Lemma scan_extends (rows : list Z) (st : Env * Locals) :
  exists new, extends img_cols img_rows (fst st) (fst (scan rows st)) new.
Proof.
  revert st. induction rows as [|r rows IH]; intros st.
  - exists []. apply extends_refl.
  - rewrite scan_cons.
    destruct (body_extends st r) as [n1 Hn1].
    destruct (IH (body st r)) as [n2 Hn2].
    exists (n2 ++ n1). eapply extends_trans; eassumption.
Qed.

Lemma extends_quietly_refl (env : Env) : extends_quietly env env [].
Proof. repeat split. constructor. Qed.

Lemma scan_degenerate (rows : list Z) :
  (forall r, r ∈ rows -> enough_corners (P_of r) = true ->
             fit_gamma (C_of r) = None) ->
  forall (env : Env) (loc : Locals),
  exists env' new,
    scan rows (env, loc) = (env', loc) /\ extends_quietly env env' new.
Proof.
  induction rows as [|r rows IH]; intros Hrows env loc.
  - exists env, []. split; [reflexivity|apply extends_quietly_refl].
  - rewrite scan_cons.
    assert (Hrest : forall r', r' ∈ rows ->
              enough_corners (P_of r') = true -> fit_gamma (C_of r') = None).
    { intros r' Hin. apply Hrows. now apply list_elem_of_further. }
    destruct (enough_corners (P_of r)) eqn:Henough.
    + pose proof (Hrows r (list_elem_of_here r rows) Henough) as Hfit.
      rewrite body_degenerate by assumption.
      cbn [fst snd].
      destruct (IH Hrest (logged env (SvdCall (P_of r))) loc)
        as (env' & new & Hscan & Hl & Hq & Hc & Hs & Hg & Ho).
      exists env', (new ++ [SvdCall (P_of r)]). split; [exact Hscan|].
      unfold extends_quietly. rewrite Hl, Hc, Hs, Hg.
      repeat split; try apply Ho.
      * cbn. now rewrite <- app_assoc.
      * apply Forall_app. split; [exact Hq|]. now repeat constructor.
    + rewrite body_short by assumption. now apply IH.
Qed.

End Rows.

(** ** The wide-angle initializer: a call *)

Section Call.

Context `{Collaborators}.
Variable charuco_ids : list Z.
Variable charucoboard : ChessboardSize.
Variable ransac_params : RansacParameters.
Variables img_cols img_rows : Z.
Variable verbose : bool.

Local Abbreviation init :=
  (initialize_doublesphere_model charuco_ids charucoboard ransac_params
     img_cols img_rows verbose).
Local Abbreviation loop :=
  (doublesphere_loop charuco_ids charucoboard ransac_params
     img_cols img_rows).

(** The identifier loop stays inside the correspondences exactly when
    there are no more identifiers than correspondences. *)
Lemma fill_id_to_corner_total (ids : list Z) :
  forall (i : nat) (cs : list FeatureCorrespondence2D3D)
         (m : gmap Z Vector2d),
    (i + length ids <= length cs)%nat ->
    exists m', fill_id_to_corner ids i cs m = Some m'.
Proof.
  induction ids as [|id ids IH]; intros i cs m Hlen;
    cbn [fill_id_to_corner]; cbn [length] in Hlen.
  - now exists m.
  - assert (Hi : (i < length cs)%nat) by lia.
    destruct (lookup_lt_is_Some_2 cs i Hi) as [cor Hcor].
    rewrite Hcor. apply IH. lia.
Qed.

Lemma fill_id_to_corner_overrun (ids : list Z) :
  forall (i : nat) (cs : list FeatureCorrespondence2D3D)
         (m : gmap Z Vector2d),
    (i <= length cs < i + length ids)%nat ->
    fill_id_to_corner ids i cs m = None.
Proof.
  induction ids as [|id ids IH]; intros i cs m Hlen;
    cbn [fill_id_to_corner]; cbn [length] in Hlen.
  - lia.
  - destruct (cs !! i) as [cor|] eqn:Hcor; [|reflexivity].
    apply lookup_lt_Some in Hcor. apply IH. lia.
Qed.

Lemma init_loop (env : Env) (st : Env * Locals) :
  loop env = Some st -> init env = Some (final_gate st).
Proof.
  intros Hloop. unfold initialize_doublesphere_model. now rewrite Hloop.
Qed.

Lemma loop_scan (env : Env) (id_to_corner : gmap Z Vector2d) :
  fill_id_to_corner charuco_ids 0 (correspondences env) ∅ = Some id_to_corner ->
  loop env =
    Some (scan_rows ransac_params img_cols img_rows id_to_corner
            (target_cols_of charucoboard)
            (Int.upto (target_rows_of charucoboard)) (env, initial_locals)).
Proof. intros Hfill. unfold doublesphere_loop. now rewrite Hfill. Qed.

Lemma loop_total (env : Env) :
  (length charuco_ids <= length (correspondences env))%nat ->
  exists id_to_corner,
    fill_id_to_corner charuco_ids 0 (correspondences env) ∅ = Some id_to_corner.
Proof. intros Hlen. now apply fill_id_to_corner_total. Qed.

(** C1.  When the row loop is over, the function returns [false] as
    soon as the caller's summary holds fewer than ten inliers, whatever
    success flag the loop recorded, and the recorded flag otherwise.
    The summary tested is the one left by the most recent estimator run
    of the call (the last row that reached the estimator, winning or
    not), or the caller's own when no row reached it. *)
Theorem last_run_gates_the_result (env : Env) :
  (length charuco_ids <= length (correspondences env))%nat ->
  exists (env' : Env) (loc : Locals) (new : list Event),
    loop env = Some (env', loc)
    /\ calls env' = new ++ calls env
    /\ ransac_summary env' = last_run_summary new (ransac_summary env)
    /\ init env =
         Some (if (length (inliers (ransac_summary env')) <? 10)%nat
               then false else success loc, env').
Proof.
  intros Hlen. destruct (loop_total env Hlen) as [id_to_corner Hfill].
  pose proof (loop_scan env id_to_corner Hfill) as Hloop.
  destruct (scan_extends ransac_params img_cols img_rows id_to_corner
              (target_cols_of charucoboard)
              (Int.upto (target_rows_of charucoboard))
              (env, initial_locals)) as (new & Hl & _ & Hs & _).
  destruct (scan_rows _ _ _ _ _ _ _) as [env' loc]. cbn [fst] in *.
  exists env', loc, new. repeat split; try assumption.
  rewrite (init_loop env _ Hloop). unfold final_gate, too_few_inliers.
  cbn [fst snd]. now destruct (_ <? _)%nat.
Qed.

(** C4.  A row with enough points whose null-space vector gives
    [t < 0], or a line with [hypot(nx, ny) > 0.95], is skipped after the
    decomposition: the row body adds the decomposition to the log and
    changes nothing else, so no estimator runs for it.  In particular a
    call in which every row with enough points is of that kind returns
    [false], runs no estimator and leaves summary and output parameters
    as the caller passed them. *)
Theorem degenerate_row_is_skipped :
  (forall (id_to_corner : gmap Z Vector2d) (target_cols r : Z)
          (st : Env * Locals),
      enough_corners (row_points id_to_corner target_cols r) = true ->
      no_real_solution (row_C id_to_corner target_cols r) = true
      \/ near_radial (row_C id_to_corner target_cols r) = true ->
      row_body ransac_params img_cols img_rows id_to_corner target_cols st r
      = (logged (fst st)
           (SvdCall (row_points id_to_corner target_cols r)), snd st))
  /\ (forall (env : Env) (id_to_corner : gmap Z Vector2d),
         fill_id_to_corner charuco_ids 0 (correspondences env) ∅
           = Some id_to_corner ->
         (forall r,
             r ∈ Int.upto (target_rows_of charucoboard) ->
             enough_corners
               (row_points id_to_corner (target_cols_of charucoboard) r)
               = true ->
             no_real_solution
               (row_C id_to_corner (target_cols_of charucoboard) r) = true
             \/ near_radial
                  (row_C id_to_corner (target_cols_of charucoboard) r)
                  = true) ->
         exists (env' : Env) (new : list Event),
           init env = Some (false, env')
           /\ extends_quietly env env' new).
Proof.
  split.
  - intros id_to_corner target_cols r st Henough Hdeg.
    apply body_degenerate; [assumption|]. now apply fit_gamma_none.
  - intros env id_to_corner Hfill Hrows.
    destruct (scan_degenerate ransac_params img_cols img_rows id_to_corner
                (target_cols_of charucoboard)
                (Int.upto (target_rows_of charucoboard))) with
      (env := env) (loc := initial_locals) as (env' & new & Hscan & Hq).
    { intros r Hin Henough. apply fit_gamma_none. now apply Hrows. }
    exists env', new. split; [|exact Hq].
    rewrite (init_loop env _ (loop_scan env id_to_corner Hfill)), Hscan.
    unfold final_gate. cbn [fst snd success initial_locals].
    now destruct (too_few_inliers _).
Qed.

(** C9.  A call leaves the caller's correspondences as they were.
    Each estimator run of the call is a calibrated one, on a copy of the
    caller's correspondences undistorted under the intrinsics guessed
    for some [gamma]; such a copy has the size of the original, and its
    element at each index has the world point of the original element
    and, for 2D point, the normalized coordinates of the original 2D
    point. *)
Theorem caller_correspondences_untouched (env : Env) :
  (length charuco_ids <= length (correspondences env))%nat ->
  (exists (ret : bool) (env' : Env) (new : list Event),
      init env = Some (ret, env')
      /\ correspondences env' = correspondences env
      /\ calls env' = new ++ calls env
      /\ Forall (wide_angle_call img_cols img_rows (correspondences env)) new)
  /\ (forall gamma,
         let k := guess_intrinsics gamma img_cols img_rows in
         let copy := undistorted gamma img_cols img_rows (correspondences env) in
         length copy = length (correspondences env)
         /\ forall i cor,
             correspondences env !! i = Some cor ->
             copy !! i =
               Some {| feature :=
                         hnormalized
                           (PixelToNormalizedCoordinates k (feature cor));
                       world_point := world_point cor |}).
Proof.
  intros Hlen. split.
  - destruct (loop_total env Hlen) as [id_to_corner Hfill].
    pose proof (init_loop env _ (loop_scan env id_to_corner Hfill)) as Hinit.
    destruct (scan_extends ransac_params img_cols img_rows id_to_corner
                (target_cols_of charucoboard)
                (Int.upto (target_rows_of charucoboard))
                (env, initial_locals)) as (new & Hl & Hc & _ & Hf).
    destruct (scan_rows _ _ _ _ _ _ _) as [env' loc]. cbn [fst] in *.
    exists (fst (final_gate (env', loc))), env', new.
    repeat split; try assumption.
    rewrite Hinit. unfold final_gate. cbn [fst snd].
    now destruct (too_few_inliers _).
  - intros gamma. cbv zeta. unfold undistorted. split.
    + apply length_map.
    + intros i cor Hcor.
      change (map ?f ?l) with (f <$> l).
      rewrite list_lookup_fmap, Hcor. reflexivity.
Qed.

End Call.

(** ** Worked runs on the scripted collaborators *)

Module Runs.

Import Scripted.

Local Open Scope float_scope.

Lemma last_run_gates_the_result_run :
  (length (Int.upto 18) <= length (correspondences last_run_is_poor))%nat
  /\ (success <$> (snd <$>
        doublesphere_loop (Int.upto 18) (board 9 2) tt 640 480
          last_run_is_poor)) = Some true
  /\ (fst <$>
        initialize_doublesphere_model (Int.upto 18) (board 9 2) tt 640 480
          false last_run_is_poor) = Some false
  /\ exists env' loc new,
       doublesphere_loop (Int.upto 18) (board 9 2) tt 640 480
         last_run_is_poor = Some (env', loc)
       /\ calls env' = new ++ calls last_run_is_poor
       /\ ransac_summary env' =
            last_run_summary new (ransac_summary last_run_is_poor)
       /\ initialize_doublesphere_model (Int.upto 18) (board 9 2) tt 640 480
            false last_run_is_poor =
          Some (if (length (inliers (ransac_summary env')) <? 10)%nat
                then false else success loc, env').
Proof.
  assert (Hlen : (length (Int.upto 18)
                  <= length (correspondences last_run_is_poor))%nat)
    by (vm_compute; lia).
  split; [exact Hlen|].
  split; [vm_compute; reflexivity|].
  split; [vm_compute; reflexivity|].
  exact (last_run_gates_the_result (H := collaborators) (Int.upto 18) (board 9 2) tt 640 480
           false last_run_is_poor Hlen).
Defined.

(** C2, as the specification words it, fails: a row whose candidate has
    exactly nine reprojections in the image (so not more than nine) is
    recorded as the best one. *)
Lemma nine_in_image_is_recorded :
  let m := corner_map (Int.upto 9) nine_corners in
  let st := (caller nine_corners [reply true zero3 12], initial_locals) in
  (rc_in_image <$> snd (attempt_row tt 640 480 m 9 (fst st) 0)) = Some 9%Z
  /\ success (snd st) = false
  /\ success (snd (row_body tt 640 480 m 9 st 0)) = true
  /\ gamma0 (snd (row_body tt 640 480 m 9 st 0)) = 1
  /\ focal_length (fst st) = 42
  /\ focal_length (fst (row_body tt 640 480 m 9 st 0)) = 0.5.
Proof. vm_compute. repeat split. Qed.

Lemma few_in_image_records_nothing_run :
  let m := corner_map (Int.upto 9) eight_in_image in
  let st := (caller eight_in_image [reply true zero3 12], initial_locals) in
  let a := attempt_row tt 640 480 m 9 (fst st) 0 in
  (rc_in_image <$> snd a) = Some 8%Z
  /\ row_body tt 640 480 m 9 st 0 = (fst a, snd st)
  /\ same_outputs (fst a) (fst st).
Proof.
  cbv zeta. split; [vm_compute; reflexivity|].
  destruct (attempt_row (H := collaborators) tt 640 480
              (corner_map (Int.upto 9) eight_in_image) 9
              (fst (caller eight_in_image [reply true zero3 12],
                    initial_locals)) 0) as [env1 [c|]] eqn:Hatt.
  - apply (proj1 (few_in_image_records_nothing (H := collaborators) tt 640 480
                    (corner_map (Int.upto 9) eight_in_image) 9
                    (caller eight_in_image [reply true zero3 12],
                     initial_locals) 0 env1 c Hatt)).
    vm_compute in Hatt. injection Hatt as _ <-. vm_compute. discriminate.
  - vm_compute in Hatt. discriminate.
Defined.

Lemma short_row_is_skipped_run :
  let m := corner_map short_first_row_ids short_first_row in
  let st := (caller short_first_row [reply true zero3 12], initial_locals) in
  (length (row_points m 9 0) < 9)%nat
  /\ row_body tt 640 480 m 9 st 0 = st
  /\ candidates tt 640 480 m 9 [0%Z] (fst st) = [].
Proof.
  cbv zeta.
  assert (Hlen : (length (row_points
                            (corner_map short_first_row_ids short_first_row)
                            9 0) < 9)%nat)
    by (vm_compute; lia).
  split; [exact Hlen|].
  exact (proj1 (short_row_is_skipped (H := collaborators) tt 640 480
                  (corner_map short_first_row_ids short_first_row) 9)
           0%Z _ Hlen).
Defined.

Lemma degenerate_row_is_skipped_run :
  let env := caller degenerate_rows [reply true zero3 12] in
  exists env' new,
    initialize_doublesphere_model (Int.upto 18) (board 9 2) tt 640 480 false
      env = Some (false, env')
    /\ extends_quietly env env' new.
Proof.
  cbv zeta.
  apply (proj2 (degenerate_row_is_skipped (H := collaborators) (Int.upto 18) (board 9 2) tt
                  640 480 false))
    with (id_to_corner := corner_map (Int.upto 18) degenerate_rows).
  - vm_compute. reflexivity.
  - intros r Hin Henough.
    change (Int.upto (target_rows_of (board 9 2))) with [0%Z; 1%Z] in Hin.
    apply elem_of_cons in Hin as [->|Hin].
    + right. vm_compute. reflexivity.
    + apply elem_of_cons in Hin as [->|Hin].
      * left. vm_compute. reflexivity.
      * apply elem_of_nil in Hin. destruct Hin.
Defined.

Lemma best_candidate_wins_run :
  let st' := scan_rows tt 640 480 two_rows_map 9 [0%Z; 1%Z]
               (second_row_is_better, initial_locals) in
  let cs := candidates tt 640 480 two_rows_map 9 [0%Z; 1%Z]
              second_row_is_better in
  success (snd st') = true
  /\ focal_length (fst st') = 1
  /\ exists i c,
       first_minimal cs i c /\ holds_candidate (fst st') (snd st') c.
Proof.
  cbv zeta.
  assert (Hsucc : success (snd (scan_rows tt 640 480 two_rows_map 9
                                  [0%Z; 1%Z]
                                  (second_row_is_better, initial_locals)))
                  = true)
    by (vm_compute; reflexivity).
  split; [exact Hsucc|]. split; [vm_compute; reflexivity|].
  exact (proj1 (proj2 (best_candidate_wins (H := collaborators) tt 640 480 two_rows_map 9)
                  [0%Z; 1%Z] second_row_is_better) Hsucc).
Defined.

Lemma radial_short_input_fails_run :
  let env := caller (row_of 0 0 1 1 3) [reply true zero3 12] in
  (length (correspondences env) < 5)%nat
  /\ initialize_radial_undistortion_camera tt 640 false env = (false, env)
  /\ calls (snd (initialize_radial_undistortion_camera tt 640 false env))
     = calls env.
Proof.
  cbv zeta.
  assert (Hlen : (length (correspondences
                            (caller (row_of 0 0 1 1 3)
                               [reply true zero3 12])) < 5)%nat)
    by (vm_compute; lia).
  split; [exact Hlen|].
  exact (radial_short_input_fails (H := collaborators) tt false 640 _ Hlen).
Defined.

Lemma radial_position_convention_run :
  let env := caller (row_of 0 0 1 1 6) [reply_turned true (V3 1 2 3) 12] in
  let env' := snd (initialize_radial_undistortion_camera tt 640 false env) in
  (4 < length (correspondences env))%nat
  /\ position env' = V3 (-2) 1 (-3)
  /\ calls env' =
       [RadialDistCall (correspondences env) (radial_meta_data 640)]
  /\ rotation env' = quarter_turn
  /\ position env' = mulv (mopp (transpose quarter_turn)) (V3 1 2 3).
Proof.
  cbv zeta.
  assert (Hlen : (4 < length (correspondences
                                (caller (row_of 0 0 1 1 6)
                                   [reply_turned true (V3 1 2 3) 12])))%nat)
    by (vm_compute; lia).
  split; [exact Hlen|]. split; [vm_compute; reflexivity|].
  exact (radial_position_convention (H := collaborators) tt false 640 _ Hlen).
Defined.

Lemma caller_correspondences_untouched_run :
  (length (Int.upto 18) <= length (correspondences last_run_is_poor))%nat
  /\ exists ret env' new,
       initialize_doublesphere_model (Int.upto 18) (board 9 2) tt 640 480
         false last_run_is_poor = Some (ret, env')
       /\ correspondences env' = correspondences last_run_is_poor
       /\ calls env' = new ++ calls last_run_is_poor
       /\ Forall (wide_angle_call 640 480 (correspondences last_run_is_poor))
                 new.
Proof.
  assert (Hlen : (length (Int.upto 18)
                  <= length (correspondences last_run_is_poor))%nat)
    by (vm_compute; lia).
  split; [exact Hlen|].
  exact (proj1 (caller_correspondences_untouched (H := collaborators) (Int.upto 18) (board 9 2)
                  tt 640 480 false last_run_is_poor Hlen)).
Defined.

Lemma rejected_estimate_is_written_run :
  let env := caller (row_of 0 0 1 1 12) [reply_turned true (V3 1 2 3) 5] in
  let p := initialize_pinhole_camera tt false env in
  let r := initialize_radial_undistortion_camera tt 640 false env in
  (position env = V3 7 7 7 /\ focal_length env = 42
   /\ radial_distortion env = 9)
  /\ (fst p = false
      /\ rotation (snd p) = quarter_turn
      /\ position (snd p) = V3 1 2 3
      /\ focal_length (snd p) = 500)
  /\ (fst r = false
      /\ rotation (snd r) = quarter_turn
      /\ position (snd r) = mulv (mopp (transpose quarter_turn)) (V3 1 2 3)
      /\ focal_length (snd r) = 500
      /\ radial_distortion (snd r) = -0.25).
Proof.
  cbv zeta. split; [vm_compute; repeat split|].
  pose proof (rejected_estimate_is_written (H := collaborators) tt false 640
                (caller (row_of 0 0 1 1 12) [reply_turned true (V3 1 2 3) 5]))
    as [Hpin Hrad].
  split.
  - apply Hpin. vm_compute. lia.
  - apply Hrad; vm_compute; lia.
Defined.

Lemma pinhole_success_iff_run :
  let env := caller (row_of 0 0 1 1 12) [reply true zero3 9] in
  let e := pinhole_estimate tt env in
  est_success e = true
  /\ (length (inliers (est_summary e)) < 10)%nat
  /\ fst (initialize_pinhole_camera tt false env) = false.
Proof.
  cbv zeta.
  assert (Hfew : (length (inliers (est_summary
                    (pinhole_estimate tt
                       (caller (row_of 0 0 1 1 12) [reply true zero3 9]))))
                  < 10)%nat)
    by (vm_compute; lia).
  split; [vm_compute; reflexivity|]. split; [exact Hfew|].
  exact (proj2 (proj2 (pinhole_success_iff (H := collaborators) tt false
                         (caller (row_of 0 0 1 1 12) [reply true zero3 9])))
           Hfew).
Defined.

End Runs.

(** * Further properties of the initializers *)

(** ** Signs and order of doubles *)

Module DoubleSigns.

Local Open Scope float_scope.

(** Two doubles with the same specification value are the same double. *)
Lemma Prim2SF_inj a b : Prim2SF a = Prim2SF b -> a = b.
Proof.
  intros Hab. rewrite <- (SF2Prim_Prim2SF a), <- (SF2Prim_Prim2SF b).
  now rewrite Hab.
Qed.

(** Rounding treats the sign as a label. *)
Lemma binary_round_aux_opp prec emax s m e l :
  SFopp (binary_round_aux prec emax s m e l)
  = binary_round_aux prec emax (negb s) m e l.
Proof.
  unfold binary_round_aux.
  destruct (shr_fexp prec emax m e l) as [mrs' e'].
  destruct (shr_fexp prec emax _ e' loc_Exact) as [mrs'' e''].
  destruct (shr_m mrs''); cbn; try reflexivity.
  destruct (Z.leb _ _); reflexivity.
Qed.

Lemma SFmul_opp_l prec emax x y :
  SFmul prec emax (SFopp x) y = SFopp (SFmul prec emax x y).
Proof.
  destruct x as [sx|sx| |sx mx ex], y as [sy|sy| |sy my ey]; cbn;
    rewrite ?binary_round_aux_opp;
    try destruct sx; try destruct sy; reflexivity.
Qed.

Lemma SFmul_opp_opp prec emax x y :
  SFmul prec emax (SFopp x) (SFopp y) = SFmul prec emax x y.
Proof.
  destruct x as [sx|sx| |sx mx ex], y as [sy|sy| |sy my ey]; cbn;
    try destruct sx; try destruct sy; reflexivity.
Qed.

Lemma SFdiv_opp_l prec emax x y :
  SFdiv prec emax (SFopp x) y = SFopp (SFdiv prec emax x y).
Proof.
  destruct x as [sx|sx| |sx mx ex], y as [sy|sy| |sy my ey]; cbn;
    try (destruct sx, sy; reflexivity); try reflexivity.
  destruct (SFdiv_core_binary prec emax _ _ _ _) as [[mz ez] lz].
  rewrite binary_round_aux_opp. now destruct sx, sy.
Qed.

Lemma mul_opp_l a b : (- a) * b = - (a * b).
Proof.
  apply Prim2SF_inj. rewrite mul_spec, !opp_spec, mul_spec.
  apply SFmul_opp_l.
Qed.

Lemma mul_opp_opp a b : (- a) * (- b) = a * b.
Proof.
  apply Prim2SF_inj. rewrite !mul_spec, !opp_spec. apply SFmul_opp_opp.
Qed.

Lemma div_opp_l a b : (- a) / b = - (a / b).
Proof.
  apply Prim2SF_inj. rewrite div_spec, !opp_spec, div_spec.
  apply SFdiv_opp_l.
Qed.

Lemma fabs_opp a : fabs (- a) = fabs a.
Proof.
  unfold fabs. apply Prim2SF_inj. rewrite !abs_spec, opp_spec.
  now destruct (Prim2SF a).
Qed.

(** An absolute value is never below zero (it may be NaN). *)
Lemma fabs_not_negative a : lt (fabs a) 0 = false.
Proof.
  unfold lt, fabs. rewrite ltb_spec, abs_spec.
  change (Prim2SF 0) with (S754_zero false).
  now destruct (Prim2SF a) as [s|s| |s m e].
Qed.

Lemma binary_round_aux_not_negative prec emax m e l :
  SFltb (binary_round_aux prec emax false m e l) (S754_zero false) = false.
Proof.
  unfold binary_round_aux.
  destruct (shr_fexp prec emax m e l) as [mrs' e'].
  destruct (shr_fexp prec emax _ e' loc_Exact) as [mrs'' e''].
  destruct (shr_m mrs''); cbn; try reflexivity.
  destruct (Z.leb _ _); reflexivity.
Qed.

Lemma SFmul_not_negative prec emax mx ex y :
  SFltb y (S754_zero false) = false ->
  SFltb (SFmul prec emax (S754_finite false mx ex) y) (S754_zero false)
  = false.
Proof.
  destruct y as [s|s| |s m e]; cbn [SFmul xorb].
  - reflexivity.
  - now destruct s.
  - reflexivity.
  - destruct s; [discriminate|]. intros _.
    apply binary_round_aux_not_negative.
Qed.

(** Halving what is not below zero gives what is not below zero. *)
Lemma half_not_negative a : lt a 0 = false -> lt (0.5 * a) 0 = false.
Proof.
  unfold lt. rewrite !ltb_spec, mul_spec.
  change (Prim2SF 0) with (S754_zero false).
  change (Prim2SF 0.5) with (S754_finite false 4503599627370496 (-53)).
  apply SFmul_not_negative.
Qed.

End DoubleSigns.

(** ** The radial initializer: when it succeeds *)

Section RadialSuccess.

Context `{Collaborators}.
Variable ransac_params : RansacParameters.
Variable verbose : bool.

(** X1.  The radial initializer returns [true] exactly when it was
    given at least five correspondences, the estimator reported success
    and the summary the estimator left holds at least ten inliers. *)
Theorem radial_success_iff (img_cols : Z) (env : Env) :
  let e := radial_estimate ransac_params img_cols env in
  fst (initialize_radial_undistortion_camera ransac_params img_cols verbose
         env) = true
  <-> (5 <= length (correspondences env))%nat
      /\ est_success e = true
      /\ (10 <= length (inliers (est_summary e)))%nat.
Proof.
  cbv zeta.
  destruct (Nat.leb_spec (length (correspondences env)) 4) as [Hle|Hgt].
  - unfold initialize_radial_undistortion_camera.
    destruct (Nat.leb_spec (length (correspondences env)) 4) as [_|Hgt];
      [|lia].
    cbn [fst]. split; [discriminate|]. intros [Hlen _]. lia.
  - rewrite radial_return by lia.
    destruct (too_few_inliers _) eqn:Hfew.
    + apply too_few_inliers_spec in Hfew.
      split; [discriminate|]. intros (_ & _ & Hten). lia.
    + apply too_few_inliers_false in Hfew. intuition lia.
Qed.

End RadialSuccess.

(** ** The lookup from corner identifier to image point *)

Section IdToCorner.

Implicit Types (ids : list Z) (cs : list FeatureCorrespondence2D3D).
Implicit Types (m : gmap Z Vector2d).

Lemma fill_lookup_other ids :
  forall (i : nat) cs m0 m (id : Z),
    fill_id_to_corner ids i cs m0 = Some m ->
    id ∉ ids -> m !! id = m0 !! id.
Proof.
  induction ids as [|id0 ids IH]; intros i cs m0 m id Hfill Hnotin;
    cbn [fill_id_to_corner] in Hfill.
  - now injection Hfill as <-.
  - destruct (cs !! i) as [cor|]; [|discriminate].
    apply not_elem_of_cons in Hnotin as [Hne Hnotin].
    rewrite (IH _ _ _ _ _ Hfill Hnotin).
    now apply lookup_insert_ne.
Qed.

Lemma fill_lookup_last ids :
  forall (i : nat) cs m0 m (j : nat) (id : Z),
    fill_id_to_corner ids i cs m0 = Some m ->
    ids !! j = Some id ->
    (forall j', (j < j')%nat -> ids !! j' <> Some id) ->
    m !! id = feature <$> cs !! (i + j)%nat.
Proof.
  induction ids as [|id0 ids IH]; intros i cs m0 m j id Hfill Hj Hlast;
    cbn [fill_id_to_corner] in Hfill; [discriminate|].
  destruct (cs !! i) as [cor|] eqn:Hcor; [|discriminate].
  destruct j as [|j]; cbn in Hj.
  - injection Hj as ->.
    assert (Hnotin : id ∉ ids).
    { intros Hin. apply list_elem_of_lookup in Hin as [j' Hj'].
      apply (Hlast (S j')); [lia|exact Hj']. }
    rewrite (fill_lookup_other _ _ _ _ _ _ Hfill Hnotin).
    rewrite lookup_insert_eq, Nat.add_0_r, Hcor. reflexivity.
  - replace (i + S j)%nat with (S i + j)%nat by lia.
    apply (IH _ _ _ _ _ _ Hfill Hj).
    intros j' Hlt. apply (Hlast (S j')). lia.
Qed.

Lemma fill_size ids :
  forall (i : nat) cs m0 m,
    fill_id_to_corner ids i cs m0 = Some m ->
    (size m <= size m0 + length ids)%nat.
Proof.
  induction ids as [|id0 ids IH]; intros i cs m0 m Hfill;
    cbn [fill_id_to_corner] in Hfill.
  - injection Hfill as <-. cbn. lia.
  - destruct (cs !! i) as [cor|]; [|discriminate].
    apply IH in Hfill. rewrite map_size_insert in Hfill. cbn [length].
    destruct (m0 !! id0); cbn in Hfill; lia.
Qed.

(** X2.  After the identifier loop, [id_to_corner] holds exactly the
    identifiers of [charuco_ids]; an identifier is mapped to the 2D
    point of the correspondence at the index of its last occurrence in
    [charuco_ids] (a repeated identifier keeps the last point written);
    and the map has no more entries than there are identifiers. *)
Theorem id_to_corner_last_write_wins ids cs m :
  fill_id_to_corner ids 0 cs ∅ = Some m ->
  (forall id : Z, id ∉ ids -> m !! id = None)
  /\ (forall (j : nat) (id : Z),
         ids !! j = Some id ->
         (forall j', (j < j')%nat -> ids !! j' <> Some id) ->
         m !! id = feature <$> cs !! j)
  /\ (size m <= length ids)%nat.
Proof.
  intros Hfill. split; [|split].
  - intros id Hnotin.
    rewrite (fill_lookup_other _ _ _ _ _ _ Hfill Hnotin).
    apply lookup_empty.
  - intros j id Hj Hlast.
    exact (fill_lookup_last _ _ _ _ _ _ _ Hfill Hj Hlast).
  - apply fill_size in Hfill. rewrite map_size_empty in Hfill. lia.
Qed.

End IdToCorner.

(** ** Rows that cannot have nine points *)

Section SparseRows.

Lemma length_omap_le {A B : Type} (f : A -> option B) (l : list A) :
  (length (omap f l) <= length l)%nat.
Proof.
  induction l as [|a l IH]; cbn; [lia|].
  destruct (f a); cbn; lia.
Qed.

(** A row has no more points than the board has columns. *)
Lemma row_points_le_cols (m : gmap Z Vector2d) (target_cols r : Z) :
  (length (row_points m target_cols r) <= Z.to_nat target_cols)%nat.
Proof.
  unfold row_points.
  rewrite <- (IntFacts.upto_length target_cols). apply length_omap_le.
Qed.

(** The conversions of [corner_id] keep the value modulo [2^32]. *)
Lemma corner_id_mod (r target_cols c : Z) :
  exists k : Z, corner_id r target_cols c = r * target_cols + c + 2 ^ 32 * k.
Proof.
  unfold corner_id, Int.to_int, Int.to_size_t.
  set (y := r * target_cols + c).
  rewrite (Z.mod_eq y (2 ^ 64)) by lia.
  set (z := y - 2 ^ 64 * (y / 2 ^ 64)).
  rewrite (Z.mod_eq (z + 2 ^ 31) (2 ^ 32)) by lia.
  exists (- 2 ^ 32 * (y / 2 ^ 64) - (z + 2 ^ 31) / 2 ^ 32).
  unfold z. lia.
Qed.

(** Within a row, columns below [2^32] have different identifiers. *)
Lemma corner_id_inj (r target_cols c1 c2 : Z) :
  0 <= c1 < 2 ^ 32 -> 0 <= c2 < 2 ^ 32 ->
  corner_id r target_cols c1 = corner_id r target_cols c2 -> c1 = c2.
Proof.
  intros H1 H2 Heq.
  destruct (corner_id_mod r target_cols c1) as [k1 Hk1].
  destruct (corner_id_mod r target_cols c2) as [k2 Hk2].
  lia.
Qed.

Lemma upto_elem (n c : Z) : c ∈ Int.upto n -> 0 <= c < n.
Proof.
  unfold Int.upto. change (map ?f ?l) with (f <$> l).
  intros Hin. apply list_elem_of_fmap in Hin as (k & -> & Hk).
  apply elem_of_seq in Hk. lia.
Qed.

Lemma upto_NoDup (n : Z) : NoDup (Int.upto n).
Proof.
  unfold Int.upto. change (map ?f ?l) with (f <$> l).
  apply NoDup_fmap_2; [apply _|apply NoDup_seq].
Qed.

(** Points read under different keys are no more than the map has
    entries. *)
Lemma omap_lookup_le_size {V B : Type} (f : V -> B) (k : Z -> Z)
    (l : list Z) :
  forall m : gmap Z V,
    NoDup (k <$> l) ->
    (length (omap (fun c => f <$> m !! k c) l) <= size m)%nat.
Proof.
  induction l as [|c l IH]; intros m Hnd; cbn [omap list_omap]; [cbn; lia|].
  rewrite fmap_cons in Hnd. apply NoDup_cons in Hnd as [Hnotin Hnd].
  destruct (m !! k c) as [v|] eqn:Hc; cbn.
  - assert (Hrest : omap (fun c' => f <$> m !! k c') l
                    = omap (fun c' => f <$> delete (k c) m !! k c') l).
    { apply list_omap_ext. apply Forall2_same_length_lookup.
      split; [reflexivity|].
      intros i x y Hx Hy. rewrite Hx in Hy. injection Hy as <-.
      rewrite lookup_delete_ne; [reflexivity|].
      intros Heq. apply Hnotin. rewrite Heq.
      apply list_elem_of_fmap. exists x. split; [reflexivity|].
      now apply list_elem_of_lookup_2 in Hx. }
    rewrite Hrest.
    specialize (IH (delete (k c) m) Hnd).
    rewrite map_size_delete, Hc in IH. cbn in IH.
    assert (size m <> 0)%nat.
    { intros Hz. apply map_size_empty_inv in Hz. subst m.
      rewrite lookup_empty in Hc. discriminate. }
    lia.
  - now apply IH.
Qed.

(** On a board of at most [2^32] columns, a row has no more points
    than [id_to_corner] has entries. *)
Lemma row_points_le_size (m : gmap Z Vector2d) (target_cols r : Z) :
  target_cols <= 2 ^ 32 ->
  (length (row_points m target_cols r) <= size m)%nat.
Proof.
  intros Hcols. unfold row_points.
  apply (omap_lookup_le_size lifted (corner_id r target_cols)).
  apply NoDup_fmap_2_strong; [|apply upto_NoDup].
  intros c1 c2 H1 H2. apply upto_elem in H1, H2.
  apply corner_id_inj; lia.
Qed.

End SparseRows.

(** ** Calls that cannot succeed, and calls that are not defined *)

Section SparseCalls.

Context `{Collaborators}.
Variable charuco_ids : list Z.
Variable charucoboard : ChessboardSize.
Variable ransac_params : RansacParameters.
Variables img_cols img_rows : Z.
Variable verbose : bool.

Local Abbreviation init :=
  (initialize_doublesphere_model charuco_ids charucoboard ransac_params
     img_cols img_rows verbose).

Lemma scan_all_short (m : gmap Z Vector2d) (target_cols : Z)
    (rows : list Z) (st : Env * Locals) :
  (forall r, enough_corners (row_points m target_cols r) = false) ->
  scan_rows ransac_params img_cols img_rows m target_cols rows st = st.
Proof.
  intros Hshort. revert st. induction rows as [|r rows IH]; intros st.
  - reflexivity.
  - rewrite scan_cons, body_short by apply Hshort. apply IH.
Qed.

Lemma init_all_short (env : Env) (m : gmap Z Vector2d) :
  fill_id_to_corner charuco_ids 0 (correspondences env) ∅ = Some m ->
  (forall r,
      enough_corners (row_points m (target_cols_of charucoboard) r) = false) ->
  init env = Some (false, env).
Proof.
  intros Hfill Hshort.
  rewrite (init_loop _ _ _ _ _ _ env _
             (loop_scan _ _ _ _ _ env m Hfill)).
  rewrite scan_all_short by exact Hshort.
  unfold final_gate. cbn [fst snd success initial_locals].
  now destruct (too_few_inliers _).
Qed.

(** X3.  The call is defined exactly when there are no more
    identifiers than correspondences: otherwise the identifier loop
    reads [correspondences[i]] past the end.  Correspondences beyond
    the identifiers are allowed. *)
Theorem doublesphere_defined_iff (env : Env) :
  is_Some (init env)
  <-> (length charuco_ids <= length (correspondences env))%nat.
Proof.
  unfold initialize_doublesphere_model, doublesphere_loop. split.
  - intros [res Hres].
    destruct (Nat.le_gt_cases (length charuco_ids)
                (length (correspondences env))) as [Hle|Hgt]; [exact Hle|].
    rewrite (fill_id_to_corner_overrun charuco_ids 0 (correspondences env) ∅)
      in Hres by lia.
    discriminate.
  - intros Hle.
    destruct (fill_id_to_corner_total charuco_ids 0 (correspondences env) ∅)
      as [m ->]; [lia|].
    cbn. eauto.
Qed.

(** X4.  On a board of at most eight columns, or of no row, a call
    returns [false] and leaves everything as it was: no row can have
    nine points, so nothing is decomposed or estimated and no output
    parameter is written. *)
Theorem narrow_board_fails (env : Env) :
  (length charuco_ids <= length (correspondences env))%nat ->
  0 <= width charucoboard <= 8 \/ height charucoboard = 0 ->
  init env = Some (false, env).
Proof.
  intros Hlen Hboard.
  destruct (loop_total charuco_ids env Hlen) as [m Hfill].
  destruct Hboard as [Hwidth|Hheight].
  - apply (init_all_short env m Hfill). intros r.
    apply enough_corners_false.
    unfold target_cols_of. rewrite IntFacts.to_size_t_small by lia.
    pose proof (row_points_le_cols m (width charucoboard) r) as Hle. lia.
  - rewrite (init_loop _ _ _ _ _ _ env _
               (loop_scan _ _ _ _ _ env m Hfill)).
    unfold target_rows_of. rewrite Hheight.
    unfold final_gate. cbn [fst snd success initial_locals scan_rows].
    change (Int.upto (Int.to_size_t 0)) with (@nil Z). cbn [fold_left fst snd].
    now destruct (too_few_inliers _).
Qed.

(** X5.  With fewer than nine identifiers (on a board whose width is
    a non-negative [int]), a call returns [false] and leaves everything
    as it was: [id_to_corner] has fewer than nine entries, so no row has
    nine points. *)
Theorem few_corners_fail (env : Env) :
  (length charuco_ids <= length (correspondences env))%nat ->
  (length charuco_ids < 9)%nat ->
  0 <= width charucoboard < 2 ^ 31 ->
  init env = Some (false, env).
Proof.
  intros Hlen Hfew Hwidth.
  destruct (loop_total charuco_ids env Hlen) as [m Hfill].
  apply (init_all_short env m Hfill). intros r.
  apply enough_corners_false.
  pose proof (fill_size _ _ _ _ _ Hfill) as Hsize.
  rewrite map_size_empty in Hsize.
  unfold target_cols_of. rewrite IntFacts.to_size_t_small by lia.
  pose proof (row_points_le_size m (width charucoboard) r) as Hle.
  specialize (Hle ltac:(lia)). lia.
Qed.

End SparseCalls.

(** ** Counting the collaborator calls of a log *)

Section LogCounts.

Context `{Collaborators}.

(** The decompositions of a log. *)
Definition svd_count (log : list Event) : nat :=
  length (filter (fun e => is_estimator_call e = false) log).

(** The estimator runs of a log. *)
Definition estimator_count (log : list Event) : nat :=
  length (filter (fun e => is_estimator_call e = true) log).

Lemma svd_count_app (l1 l2 : list Event) :
  svd_count (l1 ++ l2) = (svd_count l1 + svd_count l2)%nat.
Proof. unfold svd_count. now rewrite filter_app, length_app. Qed.

Lemma estimator_count_app (l1 l2 : list Event) :
  estimator_count (l1 ++ l2) = (estimator_count l1 + estimator_count l2)%nat.
Proof. unfold estimator_count. now rewrite filter_app, length_app. Qed.

Lemma svd_count_cons (e : Event) (l : list Event) :
  svd_count (e :: l)
  = ((if is_estimator_call e then 0 else 1) + svd_count l)%nat.
Proof.
  unfold svd_count. rewrite filter_cons.
  destruct (is_estimator_call e).
  - now rewrite decide_False.
  - now rewrite decide_True.
Qed.

Lemma estimator_count_cons (e : Event) (l : list Event) :
  estimator_count (e :: l)
  = ((if is_estimator_call e then 1 else 0) + estimator_count l)%nat.
Proof.
  unfold estimator_count. rewrite filter_cons.
  destruct (is_estimator_call e).
  - now rewrite decide_True.
  - now rewrite decide_False.
Qed.

End LogCounts.

(** [-C], coefficient by coefficient. *)
Definition negated (C : Vector4d) : Vector4d :=
  V4 (- c0 C)%float (- c1 C)%float (- c2 C)%float (- c3 C)%float.

(** ** More on the rows of the wide-angle initializer *)

Section RowFacts.

Context `{Collaborators}.
Variable ransac_params : RansacParameters.
Variables img_cols img_rows : Z.
Variable id_to_corner : gmap Z Vector2d.
Variable target_cols : Z.

Local Open Scope float_scope.

Local Abbreviation P_of r := (row_points id_to_corner target_cols r).
Local Abbreviation C_of r := (row_C id_to_corner target_cols r).
Local Abbreviation attempt := (attempt_row ransac_params img_cols img_rows
                                 id_to_corner target_cols).
Local Abbreviation body := (row_body ransac_params img_cols img_rows
                              id_to_corner target_cols).
Local Abbreviation scan := (scan_rows ransac_params img_cols img_rows
                              id_to_corner target_cols).
Local Abbreviation cands := (candidates ransac_params img_cols img_rows
                               id_to_corner target_cols).
Local Abbreviation evaluate := (evaluate_gamma ransac_params img_cols
                                  img_rows).

(** *** The reprojection count *)

Lemma reproject_fold_bounds (cam : Camera)
    (cn cs : list FeatureCorrespondence2D3D) (l : list nat) :
  forall acc : double * Z,
    (snd acc
     <= snd (fold_left (reproject_step cam img_cols img_rows cn cs) l acc)
     <= snd acc + Z.of_nat (length l))%Z.
Proof.
  induction l as [|i l IH]; intros acc; cbn [fold_left length]; [lia|].
  specialize (IH (reproject_step cam img_cols img_rows cn cs acc i)).
  assert (Hstep : (snd acc
                   <= snd (reproject_step cam img_cols img_rows cn cs acc i)
                   <= snd acc + 1)%Z).
  { unfold reproject_step.
    destruct (cn !! i), (cs !! i); try lia.
    destruct (in_image_bounds _ _ _); cbn [snd]; lia. }
  lia.
Qed.

Lemma reproject_bounds (cam : Camera)
    (cn cs : list FeatureCorrespondence2D3D) :
  (0 <= snd (reproject cam img_cols img_rows cn cs)
   <= Z.of_nat (length cn))%Z.
Proof.
  unfold reproject.
  pose proof (reproject_fold_bounds cam cn cs (seq 0 (length cn)) (0, 0%Z))
    as Hb.
  rewrite length_seq in Hb. cbn [snd] in Hb. lia.
Qed.

(** *** What a candidate is made of *)

Lemma evaluate_candidate (gamma : double) (env : Env) :
  rc_gamma (snd (evaluate gamma env)) = gamma
  /\ (0 <= rc_in_image (snd (evaluate gamma env))
      <= Z.of_nat (length (correspondences env)))%Z.
Proof.
  unfold evaluate_gamma. cbn [correspondences estimated].
  pose proof (reproject_bounds
    {| cam_intrinsics := guess_intrinsics gamma img_cols img_rows;
       cam_position :=
         ca_position (est_pose (EstimateCalibratedAbsolutePose ransac_params
           (undistorted gamma img_cols img_rows (correspondences env))
           (ransac_summary env) (sampler env)));
       cam_orientation :=
         ca_rotation (est_pose (EstimateCalibratedAbsolutePose ransac_params
           (undistorted gamma img_cols img_rows (correspondences env))
           (ransac_summary env) (sampler env))) |}
    (undistorted gamma img_cols img_rows (correspondences env))
    (correspondences env)) as Hb.
  destruct (reproject _ _ _ _ _) as [e n]. cbn [snd rc_gamma rc_in_image] in *.
  unfold undistorted in Hb. rewrite length_map in Hb. auto.
Qed.

Lemma attempt_candidate (env env1 : Env) (r : Z) (c : RowCandidate) :
  attempt env r = (env1, Some c) ->
  enough_corners (P_of r) = true
  /\ fit_gamma (C_of r) = Some (rc_gamma c)
  /\ (0 <= rc_in_image c <= Z.of_nat (length (correspondences env)))%Z.
Proof.
  intros Hatt.
  destruct (enough_corners (P_of r)) eqn:Henough.
  - destruct (fit_gamma (C_of r)) as [gamma|] eqn:Hfit.
    + rewrite (attempt_estimates _ _ _ _ _ _ _ gamma) in Hatt by assumption.
      injection Hatt as _ <-.
      destruct (evaluate_candidate gamma (logged env (SvdCall (P_of r))))
        as [-> Hb].
      auto.
    + rewrite attempt_degenerate in Hatt by assumption. discriminate.
  - rewrite attempt_short in Hatt by assumption. discriminate.
Qed.

Lemma fit_gamma_not_negative (C : Vector4d) (gamma : double) :
  fit_gamma C = Some gamma -> lt gamma 0 = false.
Proof.
  unfold fit_gamma.
  destruct (no_real_solution C); [discriminate|].
  destruct (near_radial C); [discriminate|].
  intros Hg. injection Hg as <-. apply DoubleSigns.fabs_not_negative.
Qed.

Lemma attempt_correspondences (env : Env) (r : Z) :
  correspondences (fst (attempt env r)) = correspondences env.
Proof.
  destruct (attempt_extends ransac_params img_cols img_rows id_to_corner
              target_cols env r) as (new & _ & Hc & _).
  exact Hc.
Qed.

(** What holds of every candidate a row can produce holds of all the
    candidates of a loop. *)
Lemma candidates_Forall (Q : RowCandidate -> Prop) (n : nat)
    (rows : list Z) :
  (forall env env1 r c,
      length (correspondences env) = n ->
      attempt env r = (env1, Some c) -> Q c) ->
  forall env, length (correspondences env) = n -> Forall Q (cands rows env).
Proof.
  intros HQ. induction rows as [|r rows IH]; intros env Hn; cbn [candidates].
  - constructor.
  - pose proof (attempt_correspondences env r) as Hc.
    destruct (attempt env r) as [env1 [c|]] eqn:Hatt; cbn [fst] in Hc.
    + constructor; [exact (HQ env env1 r c Hn Hatt)|].
      apply IH. now rewrite Hc.
    + apply IH. now rewrite Hc.
Qed.

Lemma candidates_gamma (rows : list Z) (env : Env) :
  Forall (fun c => lt (rc_gamma c) 0 = false) (cands rows env).
Proof.
  apply (candidates_Forall _ (length (correspondences env)));
    [|reflexivity].
  intros env0 env1 r c _ Hatt.
  apply attempt_candidate in Hatt as (_ & Hfit & _).
  exact (fit_gamma_not_negative _ _ Hfit).
Qed.

(** X6.  The number of reprojections a row counts in the image lies
    between zero and the number of the caller's correspondences, for
    every candidate of a loop. *)
Theorem in_image_is_bounded (rows : list Z) (env : Env) :
  Forall (fun c => (0 <= rc_in_image c
                    <= Z.of_nat (length (correspondences env)))%Z)
         (cands rows env).
Proof.
  apply (candidates_Forall _ (length (correspondences env)));
    [|reflexivity].
  intros env0 env1 r c Hn Hatt.
  apply attempt_candidate in Hatt as (_ & _ & Hb). now rewrite <- Hn.
Qed.

(** *** The sign of the focal length *)

Lemma scan_focal_length (rows : list Z) (env : Env) :
  let st' := scan rows (env, initial_locals) in
  lt (gamma0 (snd st')) 0 = false
  /\ (success (snd st') = true ->
      focal_length (fst st') = 0.5 * gamma0 (snd st')
      /\ lt (focal_length (fst st')) 0 = false).
Proof.
  cbv zeta.
  pose proof (scan_best ransac_params img_cols img_rows id_to_corner
                target_cols rows [] env env initial_locals
                (best_among_initial env)) as Hbest.
  rewrite app_nil_l in Hbest. unfold best_among in Hbest.
  destruct (success (snd (scan rows (env, initial_locals)))) eqn:Hsucc.
  - destruct Hbest as (i & c & (Hi & _) & (_ & _ & Hf & Hg & _)).
    assert (Hc : lt (rc_gamma c) 0 = false).
    { pose proof (candidates_gamma rows env) as Hall.
      rewrite Forall_lookup in Hall. exact (Hall i c Hi). }
    rewrite Hf, Hg. split; [exact Hc|]. intros _.
    split; [reflexivity|]. now apply DoubleSigns.half_not_negative.
  - destruct Hbest as (-> & _). split; [reflexivity|discriminate].
Qed.

(** X7.  The candidate [gamma] of a row is an absolute value, so it is
    never below zero (it may be NaN); after the loop neither is the
    recorded [gamma0], and when a candidate was recorded the focal
    length handed back is [0.5 * gamma0] and is not below zero
    either. *)
Theorem focal_length_is_not_negative (rows : list Z) (env : Env) :
  let st' := scan rows (env, initial_locals) in
  Forall (fun c => lt (rc_gamma c) 0 = false) (cands rows env)
  /\ lt (gamma0 (snd st')) 0 = false
  /\ (success (snd st') = true ->
      focal_length (fst st') = 0.5 * gamma0 (snd st')
      /\ lt (focal_length (fst st')) 0 = false).
Proof.
  cbv zeta. split; [apply candidates_gamma|apply scan_focal_length].
Qed.

(** *** The calls of a loop *)

Lemma attempt_counts (env : Env) (r : Z) :
  exists new,
    calls (fst (attempt env r)) = new ++ calls env
    /\ svd_count new = (if enough_corners (P_of r) then 1 else 0)%nat
    /\ estimator_count new
       = match snd (attempt env r) with Some _ => 1 | None => 0 end%nat
    /\ (estimator_count new <= svd_count new)%nat.
Proof.
  destruct (enough_corners (P_of r)) eqn:Henough.
  - destruct (fit_gamma (C_of r)) as [gamma|] eqn:Hfit.
    + rewrite (attempt_estimates _ _ _ _ _ _ _ gamma) by assumption.
      cbn [fst snd]. rewrite evaluate_env. eexists [_; _].
      split; [reflexivity|].
      rewrite !svd_count_cons, !estimator_count_cons. cbn. auto.
    + rewrite attempt_degenerate by assumption.
      exists [SvdCall (P_of r)].
      rewrite !svd_count_cons, !estimator_count_cons. cbn. auto.
  - rewrite attempt_short by assumption. exists []. cbn. auto.
Qed.

Lemma body_calls (st : Env * Locals) (r : Z) :
  same_effects (fst (body st r)) (fst (attempt (fst st) r)).
Proof.
  unfold row_body.
  destruct (attempt (fst st) r) as [env1 [c|]]; cbn [fst].
  - apply record_best_effects.
  - repeat split.
Qed.

Lemma observed_rows_cons (r : Z) (rows : list Z) :
  observed_rows id_to_corner target_cols (r :: rows) =
  if enough_corners (P_of r)
  then r :: observed_rows id_to_corner target_cols rows
  else observed_rows id_to_corner target_cols rows.
Proof.
  unfold observed_rows. rewrite filter_cons.
  destruct (enough_corners (P_of r)).
  - now rewrite decide_True.
  - now rewrite decide_False.
Qed.

Lemma scan_counts (rows : list Z) :
  forall st : Env * Locals,
  exists new,
    calls (fst (scan rows st)) = new ++ calls (fst st)
    /\ svd_count new = length (observed_rows id_to_corner target_cols rows)
    /\ estimator_count new = length (cands rows (fst st))
    /\ (estimator_count new <= svd_count new <= length rows)%nat.
Proof.
  induction rows as [|r rows IH]; intros st.
  - exists []. cbn. auto.
  - rewrite scan_cons.
    destruct (IH (body st r)) as (n2 & Hl2 & Hs2 & He2 & Hle2).
    destruct (attempt_counts (fst st) r) as (n1 & Hl1 & Hs1 & He1 & Hle1).
    destruct (body_calls st r) as (_ & _ & _ & Hcalls).
    rewrite (candidates_effects ransac_params img_cols img_rows
               id_to_corner target_cols rows _ _ (body_calls st r)) in He2.
    exists (n2 ++ n1).
    rewrite Hl2, Hcalls, Hl1, svd_count_app, estimator_count_app,
      Hs2, He2, Hs1, He1, observed_rows_cons.
    cbn [candidates].
    destruct (attempt (fst st) r) as [env1 oc]. cbn [fst snd] in *.
    rewrite Hs1, He1 in Hle1. rewrite Hs2, He2 in Hle2.
    split; [now rewrite app_assoc|].
    destruct (enough_corners (P_of r)), oc; cbn [length] in *;
      repeat split; lia.
Qed.

(** X8.  A loop decomposes once per row with at least nine points and
    runs the estimator once per candidate, and does nothing else to the
    log: so at most one decomposition per row of the board, and never
    more estimator runs than decompositions. *)
Theorem calls_of_a_loop (rows : list Z) (st : Env * Locals) :
  exists new,
    calls (fst (scan rows st)) = new ++ calls (fst st)
    /\ svd_count new = length (observed_rows id_to_corner target_cols rows)
    /\ estimator_count new = length (cands rows (fst st))
    /\ (estimator_count new <= svd_count new <= length rows)%nat.
Proof.
  destruct (scan_counts rows st) as (new & Hlog & Hsvd & Hest & Hle).
  exists new. repeat split; try assumption; lia.
Qed.

(** *** The best error so far *)

Lemma same_outputs_refl (env : Env) : same_outputs env env.
Proof. repeat split. Qed.

Lemma same_outputs_trans (a b c : Env) :
  same_outputs a b -> same_outputs b c -> same_outputs a c.
Proof.
  intros (HR & Hp & Hf & Hk) (HR' & Hp' & Hf' & Hk').
  unfold same_outputs. rewrite HR, Hp, Hf, Hk. auto.
Qed.

Lemma body_improves (st : Env * Locals) (r : Z) :
  (snd (body st r) = snd st /\ same_outputs (fst (body st r)) (fst st))
  \/ (success (snd (body st r)) = true
      /\ lt (min_reproj_error (snd (body st r))) (min_reproj_error (snd st))
         = true
      /\ lt (min_reproj_error (snd (body st r))) 1000 = true).
Proof.
  pose proof (attempt_outputs ransac_params img_cols img_rows id_to_corner
                target_cols (fst st) r) as Hout.
  unfold row_body.
  destruct (attempt (fst st) r) as [env1 [c|]]; cbn [fst] in Hout.
  - destruct (enough_in_image c) eqn:Hen.
    + destruct (improves c (snd st)) eqn:Himp.
      * right. rewrite (record_best_accepts (env1, snd st)) by assumption.
        cbn [fst snd success min_reproj_error].
        apply improves_spec in Himp as [Hlt H1000]. auto.
      * left. rewrite (record_best_rejects (env1, snd st)) by now right.
        auto.
    + left. rewrite (record_best_rejects (env1, snd st)) by now left.
      auto.
  - left. auto.
Qed.

Lemma scan_improves (rows : list Z) :
  forall st : Env * Locals,
    (snd (scan rows st) = snd st /\ same_outputs (fst (scan rows st)) (fst st))
    \/ (success (snd (scan rows st)) = true
        /\ lt (min_reproj_error (snd (scan rows st)))
              (min_reproj_error (snd st)) = true
        /\ lt (min_reproj_error (snd (scan rows st))) 1000 = true).
Proof.
  induction rows as [|r rows IH]; intros st.
  - left. split; [reflexivity|apply same_outputs_refl].
  - rewrite scan_cons.
    destruct (IH (body st r)) as [[Heq Hout]|(Hs & Hlt & H1000)];
      destruct (body_improves st r) as [[Heq1 Hout1]|(Hs1 & Hlt1 & H1000')].
    + left. split; [congruence|eapply same_outputs_trans; eassumption].
    + right. rewrite Heq. auto.
    + right. rewrite <- Heq1. auto.
    + right. split; [exact Hs|]. split; [|exact H1000].
      exact (DoubleFacts.lt_trans _ _ _ Hlt Hlt1).
Qed.

(** X9.  Through a loop the best mean error only goes down: either
    the locals and the output parameters end as they started, or a
    candidate has been recorded ([success] is set) and the best mean
    error ends strictly below where it started and strictly below
    1000.  In particular a recorded success is never taken back. *)
Theorem best_error_only_decreases (rows : list Z) (st : Env * Locals) :
  ((snd (scan rows st) = snd st /\ same_outputs (fst (scan rows st)) (fst st))
   \/ (success (snd (scan rows st)) = true
       /\ lt (min_reproj_error (snd (scan rows st)))
             (min_reproj_error (snd st)) = true
       /\ lt (min_reproj_error (snd (scan rows st))) 1000 = true))
  /\ (success (snd st) = true -> success (snd (scan rows st)) = true).
Proof.
  split; [apply scan_improves|].
  intros Hs. destruct (scan_improves rows st) as [[-> _]|(Hs' & _)]; auto.
Qed.

End RowFacts.

(** ** The sign of the null-space vector *)

Section SignOfC.

Context `{Collaborators}.

Local Open Scope float_scope.

Lemma line_t_negated (C : Vector4d) : line_t (negated C) = line_t C.
Proof.
  unfold line_t, negated. cbn [c0 c1 c2 c3].
  now rewrite !DoubleSigns.mul_opp_opp.
Qed.

Lemma line_d_negated (C : Vector4d) : line_d (negated C) = line_d C.
Proof. unfold line_d. now rewrite line_t_negated. Qed.

Lemma line_nx_negated (C : Vector4d) : line_nx (negated C) = - line_nx C.
Proof.
  unfold line_nx. rewrite line_d_negated. unfold negated. cbn [c0].
  apply DoubleSigns.mul_opp_l.
Qed.

Lemma line_ny_negated (C : Vector4d) : line_ny (negated C) = - line_ny C.
Proof.
  unfold line_ny. rewrite line_d_negated. unfold negated. cbn [c1].
  apply DoubleSigns.mul_opp_l.
Qed.

(** X10.  A singular vector is determined up to its sign only.  When
    [hypot] does not depend on the signs of its arguments, the vectors
    [C] and [-C] pass or fail the two tests of a row together and give
    the same [gamma], bit for bit. *)
Theorem fit_gamma_negated (C : Vector4d) :
  (forall x y, hypot (- x) (- y) = hypot x y) ->
  no_real_solution (negated C) = no_real_solution C
  /\ near_radial (negated C) = near_radial C
  /\ fit_gamma (negated C) = fit_gamma C.
Proof.
  intros Heven.
  assert (Ht : no_real_solution (negated C) = no_real_solution C).
  { unfold no_real_solution. now rewrite line_t_negated. }
  assert (Hr : near_radial (negated C) = near_radial C).
  { unfold near_radial. now rewrite line_nx_negated, line_ny_negated, Heven. }
  split; [exact Ht|]. split; [exact Hr|].
  unfold fit_gamma. rewrite Ht, Hr.
  rewrite line_nx_negated, line_ny_negated, line_d_negated.
  rewrite !DoubleSigns.mul_opp_opp.
  unfold negated at 1. cbn [c2].
  now rewrite DoubleSigns.mul_opp_l, DoubleSigns.div_opp_l,
    DoubleSigns.fabs_opp.
Qed.

End SignOfC.

(** ** What a successful call guarantees *)

Section Success.

Context `{Collaborators}.
Variable charuco_ids : list Z.
Variable charucoboard : ChessboardSize.
Variable ransac_params : RansacParameters.
Variables img_cols img_rows : Z.
Variable verbose : bool.

Local Open Scope float_scope.

Local Abbreviation init :=
  (initialize_doublesphere_model charuco_ids charucoboard ransac_params
     img_cols img_rows verbose).

(** X11.  A call that returns [true] has run the estimator at least
    once; the caller's summary is the one the most recent run left and
    holds at least ten inliers; and the focal length handed back is not
    below zero. *)
Theorem success_guarantees (env env' : Env) :
  init env = Some (true, env') ->
  (10 <= length (inliers (ransac_summary env')))%nat
  /\ lt (focal_length env') 0 = false
  /\ exists new,
       calls env' = new ++ calls env
       /\ (1 <= estimator_count new)%nat
       /\ ransac_summary env' = last_run_summary new (ransac_summary env).
Proof.
  unfold initialize_doublesphere_model, doublesphere_loop.
  destruct (fill_id_to_corner charuco_ids 0 (correspondences env) ∅)
    as [m|]; [|discriminate].
  cbn [mbind option_bind fmap option_fmap option_map].
  set (rows := Int.upto (target_rows_of charucoboard)).
  set (tc := target_cols_of charucoboard).
  pose proof (scan_focal_length ransac_params img_cols img_rows m tc rows env)
    as Hfocal.
  pose proof (scan_best ransac_params img_cols img_rows m tc rows [] env env
                initial_locals (best_among_initial env)) as Hbest.
  destruct (scan_counts ransac_params img_cols img_rows m tc rows
              (env, initial_locals)) as (new & Hl & _ & He & _).
  destruct (scan_extends ransac_params img_cols img_rows m tc rows
              (env, initial_locals)) as (new' & Hl' & _ & Hs' & _).
  cbv zeta in Hfocal. rewrite app_nil_l in Hbest.
  destruct (scan_rows ransac_params img_cols img_rows m tc rows
              (env, initial_locals)) as [env1 loc].
  cbn [fst snd] in *.
  unfold final_gate. cbn [fst snd].
  destruct (too_few_inliers (ransac_summary env1)) eqn:Hfew;
    intros Hret; injection Hret as Hsucc <-; [discriminate|].
  apply too_few_inliers_false in Hfew.
  split; [exact Hfew|]. split; [now apply Hfocal|].
  exists new. split; [exact Hl|].
  assert (new' = new) as ->.
  { rewrite Hl in Hl'. now apply app_inv_tail in Hl'. }
  split; [|exact Hs'].
  unfold best_among in Hbest. rewrite Hsucc in Hbest.
  destruct Hbest as (i & c & (Hi & _) & _).
  apply lookup_lt_Some in Hi. lia.
Qed.

End Success.

(** ** More worked runs on the scripted collaborators *)

Module MoreRuns.

Import Scripted.

Local Open Scope float_scope.

(** Identifier 3 is detected twice. *)
Definition repeated_ids : list Z := [3; 5; 3]%Z.

Definition three_points : list FeatureCorrespondence2D3D :=
  [at_pixel 1 1; at_pixel 2 2; at_pixel 4 4].

(** Two full rows on a board of eight columns. *)
Definition eight_columns : list FeatureCorrespondence2D3D :=
  row_of 0 0 1 1 8 ++ row_of 0 0 2 0.5 8.

Lemma id_to_corner_last_write_wins_run :
  let m := corner_map repeated_ids three_points in
  fill_id_to_corner repeated_ids 0 three_points ∅ = Some m
  /\ m !! 3%Z = Some (V2 4 4)
  /\ m !! 3%Z = feature <$> three_points !! 2%nat.
Proof.
  cbv zeta.
  assert (Hfill : fill_id_to_corner repeated_ids 0 three_points ∅
                  = Some (corner_map repeated_ids three_points))
    by (vm_compute; reflexivity).
  split; [exact Hfill|]. split; [vm_compute; reflexivity|].
  apply (proj1 (proj2 (id_to_corner_last_write_wins repeated_ids three_points
                         _ Hfill)) 2%nat 3%Z).
  - reflexivity.
  - intros j' Hlt. destruct j' as [|[|[|j']]]; try lia. discriminate.
Defined.

Lemma narrow_board_fails_run :
  let env := caller eight_columns [reply true zero3 12] in
  (length (Int.upto 16) <= length (correspondences env))%nat
  /\ initialize_doublesphere_model (Int.upto 16) (board 8 2) tt 640 480
       false env = Some (false, env).
Proof.
  cbv zeta.
  assert (Hlen : (length (Int.upto 16)
                  <= length (correspondences
                               (caller eight_columns [reply true zero3 12])))%nat)
    by (vm_compute; lia).
  split; [exact Hlen|].
  apply (narrow_board_fails (H := collaborators) (Int.upto 16) (board 8 2)
           tt 640 480 false _ Hlen).
  left. cbn. lia.
Defined.

Lemma few_corners_fail_run :
  let env := caller (row_of 0 0 1 1 8) [reply true zero3 12] in
  (length (Int.upto 8) < 9)%nat
  /\ initialize_doublesphere_model (Int.upto 8) (board 9 2) tt 640 480
       false env = Some (false, env).
Proof.
  cbv zeta.
  assert (Hfew : (length (Int.upto 8) < 9)%nat) by (vm_compute; lia).
  split; [exact Hfew|].
  apply (few_corners_fail (H := collaborators) (Int.upto 8) (board 9 2)
           tt 640 480 false _); [vm_compute; lia|exact Hfew|cbn; lia].
Defined.

Lemma euclid_even (x y : double) : euclid (- x) (- y) = euclid x y.
Proof. unfold euclid. now rewrite !DoubleSigns.mul_opp_opp. Qed.

Lemma fit_gamma_negated_run :
  fit_gamma (H := collaborators) (V4 0.25 0 2 0.5) = Some 2
  /\ fit_gamma (H := collaborators) (negated (V4 0.25 0 2 0.5))
     = fit_gamma (H := collaborators) (V4 0.25 0 2 0.5).
Proof.
  split; [vm_compute; reflexivity|].
  exact (proj2 (proj2 (fit_gamma_negated (H := collaborators)
                         (V4 0.25 0 2 0.5) euclid_even))).
Defined.

Lemma success_guarantees_run :
  exists env',
    initialize_doublesphere_model (Int.upto 18) (board 9 2) tt 640 480 false
      second_row_is_better = Some (true, env')
    /\ (10 <= length (inliers (ransac_summary env')))%nat
    /\ lt (focal_length env') 0 = false
    /\ exists new,
         calls env' = new ++ calls second_row_is_better
         /\ (1 <= estimator_count new)%nat
         /\ ransac_summary env' =
              last_run_summary new (ransac_summary second_row_is_better).
Proof.
  destruct (initialize_doublesphere_model (H := collaborators) (Int.upto 18)
              (board 9 2) tt 640 480 false second_row_is_better)
    as [[b env']|] eqn:Hinit.
  - assert (b = true) as -> by (vm_compute in Hinit; congruence).
    exists env'. split; [reflexivity|].
    exact (success_guarantees (H := collaborators) (Int.upto 18) (board 9 2)
             tt 640 480 false second_row_is_better env' Hinit).
  - vm_compute in Hinit. discriminate.
Defined.

End MoreRuns.
